(** * Filtered image transformations of OpenImageIO (imagebufalgo_xform.cpp)

    A shallow embedding of the resampling core of
    [src/libOpenImageIO/imagebufalgo_xform.cpp]: the [Dual2] arithmetic,
    [robust_multVecMatrix], the ROI [transform], [filtered_sample], the
    [warp_], [resize_] and [resample] kernels, [get_resize_filter] and
    [rotate].

    The C++ code computes in [float].  The embedding is written over an
    interface of float operations ([FloatOps]), with the instance
    [Binary32.ops]: the IEEE-754 single precision arithmetic the compiled
    code runs on, built on the Standard Library's [SpecFloat] at precision
    24.

    C++ [int] values are modelled as [Z].  Signed overflow has no defined
    behaviour in C++, so no wrap-around is written out; the conversion from
    [float] to [int], which is undefined for NaN, the infinities and values
    out of the [int] range, is a partial function ([to_int]). *)

From Stdlib Require Import ZArith List String Bool Lia.
From Stdlib Require Import Floats.SpecFloat FinFun.
Import ListNotations.

Set Implicit Arguments.
Open Scope Z_scope.

(** ** The float interface *)

Class FloatOps (F : Type) := {
  fadd : F -> F -> F;
  fsub : F -> F -> F;
  fmul : F -> F -> F;
  fdiv : F -> F -> F;
  fneg : F -> F;
  fabsf : F -> F;
  (** [a < b] and [a == b] of C++ *)
  fltb : F -> F -> bool;
  feqb : F -> F -> bool;
  (** the implicit conversion of an [int] to [float] *)
  of_int : Z -> F;
  (** the literal [0.5f] *)
  fhalf : F;
  floorf : F -> F;
  ceilf : F -> F;
  (** the cast [(int)x], truncating; [None] where C++ leaves it undefined *)
  to_int : F -> option Z
}.

Infix "+." := fadd (at level 50, left associativity).
Infix "-." := fsub (at level 50, left associativity).
Infix "*." := fmul (at level 40, left associativity).
Infix "/." := fdiv (at level 40, left associativity).
Infix "<." := fltb (at level 70, no associativity).
Infix "==." := feqb (at level 70, no associativity).

(** The option monad threads the undefined conversions. *)
Definition obind {A B} (o : option A) (k : A -> option B) : option B :=
  match o with Some a => k a | None => None end.

Notation "x <- o ;; k" := (obind o (fun x => k))
  (at level 61, o at next level, right associativity).
Notation "' p <- o ;; k" := (obind o (fun p => k))
  (at level 61, p pattern, o at next level, right associativity).

(** A loop whose body may be undefined: [foldM f l a] runs [f] over [l]
    from the state [a]; [mapM] collects the results. *)
Fixpoint foldM {A B} (f : A -> B -> option A) (l : list B) (a : A)
  : option A :=
  match l with
  | [] => Some a
  | b :: l' => a' <- f a b ;; foldM f l' a'
  end.

Fixpoint mapM {A B} (f : A -> option B) (l : list A) : option (list B) :=
  match l with
  | [] => Some []
  | a :: l' => b <- f a ;; bs <- mapM f l' ;; Some (b :: bs)
  end.

Definition INT_MIN : Z := - 2 ^ 31.
Definition INT_MAX : Z := 2 ^ 31 - 1.

Definition in_int_range (z : Z) : bool := (INT_MIN <=? z) && (z <=? INT_MAX).

(** ** IEEE-754 binary32, the [float] of the compiled code *)

Module Binary32.

Definition prec : Z := 24.
Definition emax : Z := 128.

Definition float : Type := spec_float.

Definition of_Z (n : Z) : float := binary_normalize prec emax n 0 false.

(** Largest integer not above a finite float: [Z.shiftl] by a negative
    amount is the flooring division by a power of two. *)
Definition floor_Z (x : float) : option Z :=
  match x with
  | S754_zero _ => Some 0
  | S754_finite s m e => Some (Z.shiftl (cond_Zopp s (Zpos m)) e)
  | _ => None
  end.

Definition ceil_Z (x : float) : option Z :=
  option_map Z.opp (floor_Z (SFopp x)).

(** Truncation towards zero. *)
Definition trunc_Z (x : float) : option Z :=
  match x with
  | S754_zero _ => Some 0
  | S754_finite s m e => Some (cond_Zopp s (Z.shiftl (Zpos m) e))
  | _ => None
  end.

(** An integral result keeps the sign of its argument when it is zero
    ([floorf(-0.0f)] is [-0.0f], [ceilf(-0.5f)] is [-0.0f]). *)
Definition integral (x : float) (z : option Z) : float :=
  match x, z with
  | S754_finite s _ _, Some 0 => S754_zero s
  | S754_finite _ _ _, Some n => of_Z n
  | _, _ => x
  end.

Definition floor (x : float) : float := integral x (floor_Z x).
Definition ceil (x : float) : float := integral x (ceil_Z x).

Definition cast_int (x : float) : option Z :=
  match trunc_Z x with
  | Some z => if in_int_range z then Some z else None
  | None => None
  end.

#[global] Instance ops : FloatOps float := {
  fadd := SFadd prec emax;
  fsub := SFsub prec emax;
  fmul := SFmul prec emax;
  fdiv := SFdiv prec emax;
  fneg := SFopp;
  fabsf := SFabs;
  fltb := SFltb;
  feqb := SFeqb;
  of_int := of_Z;
  fhalf := S754_finite false 8388608 (-24);
  floorf := floor;
  ceilf := ceil;
  to_int := cast_int
}.

(** Zero or a finite number: not NaN, not an infinity. *)
Definition is_finite (x : float) : bool :=
  match x with
  | S754_zero _ | S754_finite _ _ _ => true
  | _ => false
  end.

End Binary32.


(** ** Data model *)

(** [ROI]: half-open ranges [xbegin,xend) x [ybegin,yend) x [zbegin,zend)
    and a channel range [chbegin,chend). *)
Record ROI := {
  xbegin : Z; xend : Z;
  ybegin : Z; yend : Z;
  zbegin : Z; zend : Z;
  chbegin : Z; chend : Z
}.

(** The fields of [ImageSpec] the code reads: the data window
    [(x, y, width, height)], named [img_x], [img_y] here, the full
    (display) window, the channel count and the deep flag. *)
Record ImageSpec := {
  img_x : Z; img_y : Z; width : Z; height : Z;
  full_x : Z; full_y : Z; full_width : Z; full_height : Z;
  nchannels : Z;
  deep : bool
}.

Inductive WrapMode :=
  WrapDefault | WrapBlack | WrapClamp | WrapPeriodic | WrapMirror.

(** [clamp] of fmath.h. *)
Definition clamp (a low high : Z) : Z :=
  if low <=? a then (if a <=? high then a else high) else low.

(** Integer ranges of counted loops: [zrange lo hi] is [lo, lo+1, .., hi-1]. *)
Definition zrange (lo hi : Z) : list Z :=
  map (fun k => lo + Z.of_nat k) (seq 0 (Z.to_nat (hi - lo))).

Section Model.

Context {F : Type} {ops : FloatOps F}.

Definition f0 : F := of_int 0.
Definition f1 : F := of_int 1.
Definition f2 : F := of_int 2.

(** [std::max(a, b)] is [(a < b) ? b : a]. *)
Definition fmax (a b : F) : F := if a <. b then b else a.

(** *** Image buffers

    Modelled from the spec: [ImageBuf] and its iterators are declared in
    imagebuf.h, which is not under src/.  An image is its [ImageSpec],
    the channel values stored in its data window and, for a deep image,
    the number of samples of each pixel (section 3, "Image buffer"). *)
Record ImageBuf := {
  initialized : bool;
  spec : ImageSpec;
  pixel : Z -> Z -> Z -> F;
  deep_samples : Z -> Z -> Z
}.

Definition ib_xbegin (ib : ImageBuf) : Z := img_x (spec ib).
Definition ib_xend (ib : ImageBuf) : Z := img_x (spec ib) + width (spec ib).
Definition ib_ybegin (ib : ImageBuf) : Z := img_y (spec ib).
Definition ib_yend (ib : ImageBuf) : Z := img_y (spec ib) + height (spec ib).

(** [ImageBuf::roi()], the data window, and [roi_full()]. *)
Definition get_roi (ib : ImageBuf) : ROI :=
  let s := spec ib in
  {| xbegin := img_x s; xend := img_x s + width s;
     ybegin := img_y s; yend := img_y s + height s;
     zbegin := 0; zend := 1; chbegin := 0; chend := nchannels s |}.

Definition roi_full (ib : ImageBuf) : ROI :=
  let s := spec ib in
  {| xbegin := full_x s; xend := full_x s + full_width s;
     ybegin := full_y s; yend := full_y s + full_height s;
     zbegin := 0; zend := 1; chbegin := 0; chend := nchannels s |}.

Definition exists_pixel (ib : ImageBuf) (x y : Z) : bool :=
  (ib_xbegin ib <=? x) && (x <? ib_xend ib) &&
  (ib_ybegin ib <=? y) && (y <? ib_yend ib).

(** Modelled from the spec: the wrap modes of the glossary, "Black
    (zero), Clamp (edge), Periodic (tile), Mirror (reflect)"; [Default]
    reads as [Black].  [None] stands for the black pixel. *)
Definition wrap_mirror (v origin w : Z) : Z :=
  let k := (v - origin) mod (2 * w) in
  if k <? w then origin + k else origin + (2 * w - 1 - k).

Definition do_wrap (ib : ImageBuf) (wrap : WrapMode) (x y : Z)
  : option (Z * Z) :=
  if exists_pixel ib x y then Some (x, y) else
  match wrap with
  | WrapDefault | WrapBlack => None
  | WrapClamp =>
      Some (clamp x (ib_xbegin ib) (ib_xend ib - 1),
            clamp y (ib_ybegin ib) (ib_yend ib - 1))
  | WrapPeriodic =>
      Some (ib_xbegin ib + (x - ib_xbegin ib) mod width (spec ib),
            ib_ybegin ib + (y - ib_ybegin ib) mod height (spec ib))
  | WrapMirror =>
      Some (wrap_mirror x (ib_xbegin ib) (width (spec ib)),
            wrap_mirror y (ib_ybegin ib) (height (spec ib)))
  end.

(** The channel [c] an iterator positioned at [(x, y)] yields. *)
Definition getchannel (ib : ImageBuf) (wrap : WrapMode) (x y c : Z) : F :=
  match do_wrap ib wrap x y with
  | Some (x', y') => pixel ib x' y' c
  | None => f0
  end.

(** [out[c] = v] through a writing iterator at [(x, y)]. *)
Definition setchannel (ib : ImageBuf) (x y c : Z) (v : F) : ImageBuf :=
  {| initialized := initialized ib;
     spec := spec ib;
     pixel := fun x' y' c' =>
       if (x' =? x)%Z && (y' =? y)%Z && (c' =? c)%Z then v
       else pixel ib x' y' c';
     deep_samples := deep_samples ib |}.

(** The pixels an iterator over [xb,xe) x [yb,ye) visits, in raster
    order (rows outermost).  Ranges are half-open, as those of [ROI]:
    the code asks for the single plane z = 0 as the range [0, 1) and for
    the columns [src_x - radi .. src_x + radi] as
    [(src_x - radi, src_x + radi + 1)]. *)
Definition raster (xb xe yb ye : Z) : list (Z * Z) :=
  flat_map (fun y => map (fun x => (x, y)) (zrange xb xe)) (zrange yb ye).

(** *** Filters

    Modelled from the spec: [Filter2D] of filter.h, not under src/
    (section 3, "Filter"): a width, a height, a separability flag, the
    2D evaluator and the two 1D evaluators. *)
Record Filter2D := {
  filter_name : string;
  filter_width : F;
  filter_height : F;
  separable : bool;
  filter_eval : F -> F -> F;
  xfilt : F -> F;
  yfilt : F -> F
}.

(** *** Dual numbers *)
Record Dual2 := { val : F; dx : F; dy : F }.

Definition Dual2_of_float (v : F) : Dual2 :=
  {| val := v; dx := f0; dy := f0 |}.

Definition Dual2_add (a b : Dual2) : Dual2 :=
  {| val := val a +. val b; dx := dx a +. dx b; dy := dy a +. dy b |}.

Definition Dual2_add_float (a : Dual2) (b : F) : Dual2 :=
  {| val := val a +. b; dx := dx a; dy := dy a |}.

Definition Dual2_mul_float (a : Dual2) (b : F) : Dual2 :=
  {| val := val a *. b; dx := dx a *. b; dy := dy a *. b |}.

Definition Dual2_mul (a b : Dual2) : Dual2 :=
  {| val := val a *. val b;
     dx := val a *. dx b +. dx a *. val b;
     dy := val a *. dy b +. dy a *. val b |}.

Definition Dual2_div (a b : Dual2) : Dual2 :=
  let bvalinv := f1 /. val b in
  let aval_bval := val a *. bvalinv in
  {| val := aval_bval;
     dx := bvalinv *. (dx a -. aval_bval *. dx b);
     dy := bvalinv *. (dy a -. aval_bval *. dy b) |}.

(** *** 3x3 matrices, 2D points and boxes of Imath *)
Record M33f := {
  m00 : F; m01 : F; m02 : F;
  m10 : F; m11 : F; m12 : F;
  m20 : F; m21 : F; m22 : F
}.

Record V2f := { vx : F; vy : F }.

Record Box2f := { bmin : V2f; bmax : V2f }.

(** [robust_multVecMatrix]: the point [(x, y)] with derivatives through
    the matrix; the quotient is taken only when [w.val() != 0]. *)
Definition homogeneous_w (M : M33f) (x y : Dual2) : Dual2 :=
  Dual2_add_float
    (Dual2_add (Dual2_mul_float x (m02 M)) (Dual2_mul_float y (m12 M)))
    (m22 M).

Definition robust_multVecMatrix (M : M33f) (x y : Dual2) : Dual2 * Dual2 :=
  let a := Dual2_add_float
             (Dual2_add (Dual2_mul_float x (m00 M))
                        (Dual2_mul_float y (m10 M))) (m20 M) in
  let b := Dual2_add_float
             (Dual2_add (Dual2_mul_float x (m01 M))
                        (Dual2_mul_float y (m11 M))) (m21 M) in
  let w := homogeneous_w M x y in
  if negb (val w ==. f0)
  then (Dual2_div a w, Dual2_div b w)
  else (Dual2_of_float f0, Dual2_of_float f0).

(** [Imath::M33f::multVecMatrix] on a [V2f]. *)
Definition multVecMatrix (M : M33f) (p : V2f) : V2f :=
  let a := vx p *. m00 M +. vy p *. m10 M +. m20 M in
  let b := vx p *. m01 M +. vy p *. m11 M +. m21 M in
  let w := vx p *. m02 M +. vy p *. m12 M +. m22 M in
  {| vx := a /. w; vy := b /. w |}.

(** [Imath::Box2f::extendBy] with a point. *)
Definition lower (m p : F) : F := if p <. m then p else m.
Definition upper (m p : F) : F := if m <. p then p else m.

Definition extendBy (b : Box2f) (p : V2f) : Box2f :=
  {| bmin := {| vx := lower (vx (bmin b)) (vx p);
                vy := lower (vy (bmin b)) (vy p) |};
     bmax := {| vx := upper (vx (bmax b)) (vx p);
                vy := upper (vy (bmax b)) (vy p) |} |}.

Definition Box2f_of_point (p : V2f) : Box2f := {| bmin := p; bmax := p |}.

(** [int(floorf(v))] *)
Definition int_floorf (v : F) : option Z := to_int (floorf v).
Definition int_ceilf (v : F) : option Z := to_int (ceilf v).

(** The four corner pixel centres of a ROI, as [transform] forms them. *)
Definition roi_corners (roi : ROI) : V2f * V2f * V2f * V2f :=
  let ul := {| vx := of_int (xbegin roi) +. fhalf;
               vy := of_int (ybegin roi) +. fhalf |} in
  let ur := {| vx := of_int (xend roi) -. fhalf;
               vy := of_int (ybegin roi) +. fhalf |} in
  let ll := {| vx := of_int (xbegin roi) +. fhalf;
               vy := of_int (yend roi) -. fhalf |} in
  let lr := {| vx := of_int (xend roi) -. fhalf;
               vy := of_int (yend roi) -. fhalf |} in
  (ul, ur, ll, lr).

Definition transform_box (M : M33f) (roi : ROI) : Box2f :=
  let '(ul, ur, ll, lr) := roi_corners roi in
  let ul := multVecMatrix M ul in
  let ur := multVecMatrix M ur in
  let ll := multVecMatrix M ll in
  let lr := multVecMatrix M lr in
  extendBy (extendBy (extendBy (Box2f_of_point ul) ll) ur) lr.

(** [transform]: transform an ROI by an affine matrix. *)
Definition transform (M : M33f) (roi : ROI) : option ROI :=
  let box := transform_box M roi in
  xmin <- int_floorf (vx (bmin box)) ;;
  ymin <- int_floorf (vy (bmin box)) ;;
  xmax0 <- int_floorf (vx (bmax box)) ;;
  ymax0 <- int_floorf (vy (bmax box)) ;;
  Some {| xbegin := xmin; xend := xmax0 + 1;
          ybegin := ymin; yend := ymax0 + 1;
          zbegin := zbegin roi; zend := zend roi;
          chbegin := chbegin roi; chend := chend roi |}.

(** *** Pixel accumulators

    [sum], [pel]: one float per channel, [nc] of them. *)
Definition zeros (nc : Z) : list F := map (fun _ => f0) (zrange 0 nc).

(** [for (c = 0; c < nc; ++c) a[c] = f(c, a[c])] over the whole array. *)
Definition mapi_chan (f : Z -> F -> F) (a : list F) : list F :=
  map (fun cv => f (fst cv) (snd cv))
      (combine (zrange 0 (Z.of_nat (List.length a))) a).

(** [a[c]]; reading outside the array is undefined. *)
Definition chan (a : list F) (c : Z) : option F :=
  if c <? 0 then None else nth_error a (Z.to_nat c).

(** *** filtered_sample *)

(** The isotropic footprint [max(1, max(|dadx|, |dady|))]. *)
Definition footprint (dadx dady : F) : F :=
  fmax f1 (fmax (fabsf dadx) (fabsf dady)).

Definition filterrad_s (ds : F) (filter : Filter2D) : F :=
  fhalf *. ds *. filter_width filter.

Definition filterrad_t (dt : F) (filter : Filter2D) : F :=
  fhalf *. dt *. filter_width filter.

(** The bounds handed to the source iterator. *)
Record Support := { smin : Z; smax : Z; tmin : Z; tmax : Z }.

Definition sample_support (s t ds dt : F) (filter : Filter2D)
  : option Support :=
  smin <- int_floorf (s -. filterrad_s ds filter) ;;
  smax <- int_ceilf (s +. filterrad_s ds filter) ;;
  tmin <- int_floorf (t -. filterrad_t dt filter) ;;
  tmax <- int_ceilf (t +. filterrad_t dt filter) ;;
  Some {| smin := smin; smax := smax; tmin := tmin; tmax := tmax |}.

(** The body of [if (edgeclamp) { ... }]. *)
Definition clamp_support (src : ImageBuf) (sup : Support) : Support :=
  {| smin := clamp (smin sup) (ib_xbegin src) (ib_xend src);
     smax := clamp (smax sup) (ib_xbegin src) (ib_xend src);
     tmin := clamp (tmin sup) (ib_ybegin src) (ib_yend src);
     tmax := clamp (tmax sup) (ib_ybegin src) (ib_yend src) |}.

(** The arguments of the constructor of [samp]: the range and the wrap
    mode. *)
Definition sample_iterator (src : ImageBuf) (s t ds dt : F)
    (filter : Filter2D) (wrap : WrapMode) (edgeclamp : bool)
  : option (Support * WrapMode) :=
  sup <- sample_support s t ds dt filter ;;
  Some (if edgeclamp then clamp_support src sup else sup, wrap).

(** The pixels [samp] visits. *)
Definition support_pixels (sup : Support) : list (Z * Z) :=
  raster (smin sup) (smax sup) (tmin sup) (tmax sup).

(** One turn of [for (; !samp.done(); ++samp)]. *)
Definition sample_step (src : ImageBuf) (wrap : WrapMode)
    (s t ds_inv dt_inv : F) (filter : Filter2D) (acc : list F * F)
    (p : Z * Z) : list F * F :=
  let w := filter_eval filter (ds_inv *. (of_int (fst p) +. fhalf -. s))
                              (dt_inv *. (of_int (snd p) +. fhalf -. t)) in
  (mapi_chan (fun c v => v +. w *. getchannel src wrap (fst p) (snd p) c)
             (fst acc),
   snd acc +. w).

(** The loop [for (; !samp.done(); ++samp)] over the pixels the
    iterator visits: [sum] and [total_w]. *)
Definition weighted_sum (src : ImageBuf) (wrap : WrapMode)
    (s t ds_inv dt_inv : F) (filter : Filter2D) (pixels : list (Z * Z))
  : list F * F :=
  fold_left (sample_step src wrap s t ds_inv dt_inv filter) pixels
            (zeros (nchannels (spec src)), f0).

(** [if (total_w > 0.0f) result[c] = sum[c] / total_w; else
    result[c] = 0.0f;] *)
Definition normalized (acc : list F * F) : list F :=
  if f0 <. snd acc
  then mapi_chan (fun _ v => v /. snd acc) (fst acc)
  else mapi_chan (fun _ _ => f0) (fst acc).

Definition filtered_sample (src : ImageBuf) (s t dsdx dtdx dsdy dtdy : F)
    (filter : Filter2D) (wrap : WrapMode) (edgeclamp : bool)
  : option (list F) :=
  let ds := footprint dsdx dsdy in
  let dt := footprint dtdx dtdy in
  let ds_inv := f1 /. ds in
  let dt_inv := f1 /. dt in
  it <- sample_iterator src s t ds dt filter wrap edgeclamp ;;
  Some (normalized (weighted_sum src (snd it) s t ds_inv dt_inv filter
                                 (support_pixels (fst it)))).

(** *** warp_ *)

(** The source point of the destination pixel [(x, y)], with its
    derivatives: the first three statements of the loop body. *)
Definition dst_point_x (x : Z) : Dual2 :=
  {| val := of_int x +. fhalf; dx := f1; dy := f0 |}.
Definition dst_point_y (y : Z) : Dual2 :=
  {| val := of_int y +. fhalf; dx := f0; dy := f1 |}.

Definition warp_source_point (Minv : M33f) (x y : Z) : Dual2 * Dual2 :=
  robust_multVecMatrix Minv (dst_point_x x) (dst_point_y y).

Definition warp_sample (src : ImageBuf) (Minv : M33f) (filter : Filter2D)
    (wrap : WrapMode) (edgeclamp : bool) (x y : Z) : option (list F) :=
  let xy := warp_source_point Minv x y in
  filtered_sample src (val (fst xy)) (val (snd xy)) (dx (fst xy))
                  (dx (snd xy)) (dy (fst xy)) (dy (snd xy))
                  filter wrap edgeclamp.

(** [filtered_sample] writes [result[0 .. src.nchannels())] into [pel],
    which holds [dst.nchannels()] floats; a longer result overruns it. *)
Definition store_result (pel res : list F) : option (list F) :=
  if (List.length res <=? List.length pel)%nat
  then Some (res ++ skipn (List.length res) pel)
  else None.

(** [out[c] = pel[c];] *)
Definition write_channel (x y : Z) (pel : list F) (dst : ImageBuf) (c : Z)
  : option ImageBuf :=
  v <- chan pel c ;; Some (setchannel dst x y c v).

(** [for (c = roi.chbegin; c < roi.chend; ++c) out[c] = pel[c];] *)
Definition write_channels (dst : ImageBuf) (x y : Z) (pel : list F)
    (chans : list Z) : option ImageBuf :=
  foldM (write_channel x y pel) chans dst.

(** One turn of [for (; !out.done(); ++out)]: the state is [pel] and the
    destination. *)
Definition warp_step (src : ImageBuf) (Minv : M33f) (filter : Filter2D)
    (wrap : WrapMode) (edgeclamp : bool) (roi : ROI)
    (st : list F * ImageBuf) (p : Z * Z) : option (list F * ImageBuf) :=
  res <- warp_sample src Minv filter wrap edgeclamp (fst p) (snd p) ;;
  pel <- store_result (fst st) res ;;
  dst <- write_channels (snd st) (fst p) (snd p) pel
           (zrange (chbegin roi) (chend roi)) ;;
  Some (pel, dst).

(** The pixels of a ROI in the order a writing iterator visits them. *)
Definition roi_pixels (roi : ROI) : list (Z * Z) :=
  raster (xbegin roi) (xend roi) (ybegin roi) (yend roi).

(** [warp_], run as one tile ([parallel_image] hands the kernel disjoint
    tiles of [roi]; [pel] never leaves a tile).  [Minv] is [M.inverse()],
    computed by Imath. *)
Definition warp_ (dst src : ImageBuf) (Minv : M33f) (filter : Filter2D)
    (wrap : WrapMode) (edgeclamp : bool) (roi : ROI)
  : option (bool * ImageBuf) :=
  let nc := nchannels (spec dst) in
  st <- foldM (warp_step src Minv filter wrap edgeclamp roi)
              (roi_pixels roi) (zeros nc, dst) ;;
  Some (true, snd st).

(** *** get_resize_filter *)

(** Modelled from the spec: [FilterDesc] (section 3), of which the code
    reads the name and the default width. *)
Record FilterDesc := { fd_name : string; fd_width : F }.

Inductive XformError := UnknownFilter (name : string).

Section FilterRegistry.

(** The filter catalog, [Filter2D::get_filterdesc(i, &fd)] for
    [i < Filter2D::num_filters()], and [Filter2D::create], both of
    filter.cpp (outside src/). *)
Variable registry : list FilterDesc.
Variable create : string -> F -> F -> option Filter2D.

(** The name after [if (filtername.empty()) { ... }]. *)
Definition resize_filter_name (filtername : string) (wratio hratio : F)
  : string :=
  if String.eqb filtername EmptyString then
    if (f1 <. wratio) || (f1 <. hratio)
    then "blackman-harris"%string
    else "lanczos3"%string
  else filtername.

Definition get_resize_filter (filtername : string) (fwidth wratio hratio : F)
  : option Filter2D * option XformError :=
  let filtername := resize_filter_name filtername wratio hratio in
  let filter :=
    match find (fun fd => String.eqb (fd_name fd) filtername) registry with
    | Some fd =>
        let w := if f0 <. fwidth then fwidth
                 else fd_width fd *. fmax f1 wratio in
        let h := if f0 <. fwidth then fwidth
                 else fd_width fd *. fmax f1 hratio in
        create filtername w h
    | None => None
    end in
  match filter with
  | Some _ => (filter, None)
  | None => (None, Some (UnknownFilter filtername))
  end.

(** The resize ratios [resize] and [fit] pass to [get_resize_filter]. *)
Definition resize_wratio (dst src : ImageBuf) : F :=
  of_int (full_width (spec dst)) /. of_int (full_width (spec src)).
Definition resize_hratio (dst src : ImageBuf) : F :=
  of_int (full_height (spec dst)) /. of_int (full_height (spec src)).

End FilterRegistry.

(** *** Source iterators

    Modelled from the spec: [ImageBuf::ConstIterator] (section 3, (b)):
    [rerange] seeks to a rectangular sub-region, [++] steps through it
    in raster order, [pos] moves to a pixel.  An iterator that has left
    its range is [done]; its pixel is then not defined. *)
Record ConstIterator := {
  rng_xbegin : Z; rng_xend : Z; rng_ybegin : Z; rng_yend : Z;
  it_x : Z; it_y : Z;
  it_valid : bool
}.

Definition in_range (xb xe yb ye x y : Z) : bool :=
  (xb <=? x) && (x <? xe) && (yb <=? y) && (y <? ye).

Definition it_pos (it : ConstIterator) (x y : Z) : ConstIterator :=
  {| rng_xbegin := rng_xbegin it; rng_xend := rng_xend it;
     rng_ybegin := rng_ybegin it; rng_yend := rng_yend it;
     it_x := x; it_y := y;
     it_valid := in_range (rng_xbegin it) (rng_xend it)
                          (rng_ybegin it) (rng_yend it) x y |}.

Definition rerange (xb xe yb ye : Z) : ConstIterator :=
  {| rng_xbegin := xb; rng_xend := xe; rng_ybegin := yb; rng_yend := ye;
     it_x := xb; it_y := yb;
     it_valid := in_range xb xe yb ye xb yb |}.

Definition it_done (it : ConstIterator) : bool := negb (it_valid it).

(** [++it] *)
Definition it_incr (it : ConstIterator) : ConstIterator :=
  if it_x it + 1 <? rng_xend it then it_pos it (it_x it + 1) (it_y it)
  else if it_y it + 1 <? rng_yend it
       then it_pos it (rng_xbegin it) (it_y it + 1)
       else {| rng_xbegin := rng_xbegin it; rng_xend := rng_xend it;
               rng_ybegin := rng_ybegin it; rng_yend := rng_yend it;
               it_x := rng_xbegin it; it_y := rng_ybegin it;
               it_valid := false |}.

(** [it[c]] *)
Definition it_channel (src : ImageBuf) (wrap : WrapMode)
    (it : ConstIterator) (c : Z) : option F :=
  if it_valid it then Some (getchannel src wrap (it_x it) (it_y it) c)
  else None.

(** [pel[c] += w * p[c]] over the channels, for the source pixel
    [(x, y)] read under clamp wrap. *)
Definition tap_pixel (src : ImageBuf) (x y : Z) (w : F) (pel : list F)
  : list F :=
  mapi_chan (fun c v => v +. w *. getchannel src WrapClamp x y c) pel.

(** [for (c = 0; c < nchannels; ++c) pel[c] += w * srcpel[c];] *)
Definition accumulate (src : ImageBuf) (it : ConstIterator) (w : F)
    (pel : list F) : option (list F) :=
  if it_valid it
  then Some (tap_pixel src (it_x it) (it_y it) w pel)
  else None.

(** *** resize_ *)

(** [floorfrac] of fmath.h: the floor as an [int] and the fraction. *)
Definition floorfrac (v : F) : option (Z * F) :=
  let f := floorf v in
  xint <- to_int f ;;
  Some (xint, v -. f).

(** [ifloor] of fmath.h. *)
Definition ifloor (v : F) : option Z := to_int (floorf v).

(** [total += w] over an array, from [0.0f]. *)
Definition total (ws : list F) : F := fold_left fadd ws f0.

(** [if (total != 0.0f) for (...) w[i] /= total;] *)
Definition normalize (ws : list F) : list F :=
  let tw := total ws in
  if negb (tw ==. f0) then map (fun w => w /. tw) ws else ws.

(** What the kernel lambda computes before it loops. *)
Record ResizeGeometry := {
  srcfx : F; srcfy : F; srcfw : F; srcfh : F;
  xratio : F; yratio : F;
  dstfx : F; dstfy : F;
  dstpixelwidth : F; dstpixelheight : F;
  radi : Z; radj : Z
}.

Definition resize_geometry (dst src : ImageBuf) (filter : Filter2D)
  : option ResizeGeometry :=
  let srcspec := spec src in
  let dstspec := spec dst in
  let srcfw := of_int (full_width srcspec) in
  let srcfh := of_int (full_height srcspec) in
  let xratio := of_int (full_width dstspec) /. srcfw in
  let yratio := of_int (full_height dstspec) /. srcfh in
  let dstfw := of_int (full_width dstspec) in
  let dstfh := of_int (full_height dstspec) in
  let filterrad := filter_width filter /. f2 in
  radi <- int_ceilf (filterrad /. xratio) ;;
  radj <- int_ceilf (filterrad /. yratio) ;;
  Some {| srcfx := of_int (full_x srcspec); srcfy := of_int (full_y srcspec);
          srcfw := srcfw; srcfh := srcfh;
          xratio := xratio; yratio := yratio;
          dstfx := of_int (full_x dstspec); dstfy := of_int (full_y dstspec);
          dstpixelwidth := f1 /. dstfw; dstpixelheight := f1 /. dstfh;
          radi := radi; radj := radj |}.

Definition xtaps (g : ResizeGeometry) : Z := 2 * radi g + 1.
Definition ytaps (g : ResizeGeometry) : Z := 2 * radj g + 1.

(** [src_xf] for the destination column [x], [src_yf] for the row [y]. *)
Definition src_xf (g : ResizeGeometry) (x : Z) : F :=
  let s := (of_int x -. dstfx g +. fhalf) *. dstpixelwidth g in
  srcfx g +. s *. srcfw g.

Definition src_yf (g : ResizeGeometry) (y : Z) : F :=
  let t := (of_int y -. dstfy g +. fhalf) *. dstpixelheight g in
  srcfy g +. t *. srcfh g.

(** The unnormalized tap weights of a column, and of a row. *)
Definition xtap_weights (g : ResizeGeometry) (filter : Filter2D) (frac : F)
  : list F :=
  map (fun i => xfilt filter
                  (xratio g *. (of_int (i - radi g) -. (frac -. fhalf))))
      (zrange 0 (xtaps g)).

Definition ytap_weights (g : ResizeGeometry) (filter : Filter2D) (frac : F)
  : list F :=
  map (fun j => yfilt filter
                  (yratio g *. (of_int (j - radj g) -. (frac -. fhalf))))
      (zrange 0 (ytaps g)).

(** One row of [xfiltval_all]: the normalized taps of column [x]. *)
Definition xfiltval_row (g : ResizeGeometry) (filter : Filter2D) (x : Z)
  : option (list F) :=
  '(_, src_xf_frac) <- floorfrac (src_xf g x) ;;
  Some (normalize (xtap_weights g filter src_xf_frac)).

(** [xfiltval_all], one row per column of the tile. *)
Definition xfiltval_all (g : ResizeGeometry) (filter : Filter2D) (roi : ROI)
  : option (list (list F)) :=
  mapM (xfiltval_row g filter) (zrange (xbegin roi) (xend roi)).

(** One turn of the innermost loop of the separable path,
    [for (i = 0; i < xtaps; ++i, ++srcpel)], with the tap [wx]. *)
Definition separable_tap (src : ImageBuf) (wy : F)
    (st : ConstIterator * list F) (wx : F) : option (ConstIterator * list F) :=
  let w := wy *. wx in
  pel <- (if negb (w ==. f0) then accumulate src (fst st) w (snd st)
          else Some (snd st)) ;;
  Some (it_incr (fst st), pel).

(** One turn of [for (j = -radj; j <= radj; ++j)] of the separable path,
    with the tap [wy]; a zero [wy] moves the iterator down one scanline. *)
Definition separable_row (src : ImageBuf) (xfiltval : list F)
    (st : ConstIterator * list F) (wy : F) : option (ConstIterator * list F) :=
  if wy ==. f0
  then Some (it_pos (fst st) (it_x (fst st)) (it_y (fst st) + 1), snd st)
  else foldM (separable_tap src wy) xfiltval st.

Definition separable_rows (src : ImageBuf) (yfiltval xfiltval : list F)
    (st : ConstIterator * list F) : option (ConstIterator * list F) :=
  foldM (separable_row src xfiltval) yfiltval st.

(** The value the separable path writes to the output pixel whose
    source pixel is [(src_x, src_y)]. *)
Definition separable_pixel (src : ImageBuf) (nchannels : Z) (g : ResizeGeometry)
    (yfiltval : list F) (totalweight_y : F) (xfiltval : list F)
    (src_x src_y : Z) : option (list F) :=
  let pel := zeros nchannels in
  let totalweight_x := total xfiltval in
  pel <- (if negb (totalweight_x ==. f0)
          then
            let srcpel := rerange (src_x - radi g) (src_x + radi g + 1)
                                  (src_y - radj g) (src_y + radj g + 1) in
            option_map snd
              (separable_rows src yfiltval xfiltval (srcpel, pel))
          else Some pel) ;;
  Some (if totalweight_y ==. f0 then zeros nchannels else pel).

(** One turn of the innermost loop of the non-separable path, at the
    offsets [(i, j)]; the state is the iterator, [pel] and [totalweight]. *)
Definition general_tap (src : ImageBuf) (filter : Filter2D)
    (g : ResizeGeometry) (src_xf_frac src_yf_frac : F) (j : Z)
    (st : ConstIterator * list F * F) (i : Z)
  : option (ConstIterator * list F * F) :=
  let '(it, pel, totalweight) := st in
  let w := filter_eval filter
             (xratio g *. (of_int i -. (src_xf_frac -. fhalf)))
             (yratio g *. (of_int j -. (src_yf_frac -. fhalf))) in
  if negb (w ==. f0)
  then pel <- accumulate src it w pel ;;
       Some (it_incr it, pel, totalweight +. w)
  else Some (it_incr it, pel, totalweight).

(** The loops [for (j = -radj; j <= radj; ++j)
    for (i = -radi; i <= radi; ++i, ++srcpel)]. *)
Definition general_taps (src : ImageBuf) (filter : Filter2D)
    (g : ResizeGeometry) (src_xf_frac src_yf_frac : F)
    (st : ConstIterator * list F * F)
  : option (ConstIterator * list F * F) :=
  foldM (fun st j =>
           foldM (general_tap src filter g src_xf_frac src_yf_frac j)
                 (zrange (- radi g) (radi g + 1)) st)
        (zrange (- radj g) (radj g + 1)) st.

(** The value the non-separable path writes to the output pixel
    [(x, y)]. *)
Definition general_pixel (src : ImageBuf) (nchannels : Z) (filter : Filter2D)
    (g : ResizeGeometry) (x y : Z) : option (list F) :=
  '(src_y, src_yf_frac) <- floorfrac (src_yf g y) ;;
  '(src_x, src_xf_frac) <- floorfrac (src_xf g x) ;;
  let pel := zeros nchannels in
  let srcpel := rerange (src_x - radi g) (src_x + radi g + 1)
                        (src_y - radi g) (src_y + radi g + 1) in
  '(_, pel, totalweight) <-
     general_taps src filter g src_xf_frac src_yf_frac (srcpel, pel, f0) ;;
  Some (if totalweight ==. f0 then zeros nchannels
        else mapi_chan (fun _ v => v /. totalweight) pel).

(** [for (c = 0; c < nchannels; ++c) out[c] = pel[c];] *)
Definition write_pixel (dst : ImageBuf) (x y : Z) (pel : list F) : ImageBuf :=
  fold_left (fun d cv => setchannel d x y (fst cv) (snd cv))
            (combine (zrange 0 (Z.of_nat (List.length pel))) pel) dst.

(** One scanline of the separable path. *)
Definition resize_separable_row (src : ImageBuf) (filter : Filter2D)
    (g : ResizeGeometry) (roi : ROI) (table : list (list F))
    (dst : ImageBuf) (y : Z) : option ImageBuf :=
  let nchannels := nchannels (spec dst) in
  '(src_y, src_yf_frac) <- floorfrac (src_yf g y) ;;
  let yw := ytap_weights g filter src_yf_frac in
  let totalweight_y := total yw in
  let yfiltval := normalize yw in
  foldM (fun dst xr =>
           src_x <- ifloor (src_xf g (fst xr)) ;;
           pel <- separable_pixel src nchannels g yfiltval totalweight_y
                                  (snd xr) src_x src_y ;;
           Some (write_pixel dst (fst xr) y pel))
        (combine (zrange (xbegin roi) (xend roi)) table) dst.

Definition resize_separable (dst src : ImageBuf) (filter : Filter2D)
    (g : ResizeGeometry) (roi : ROI) : option ImageBuf :=
  table <- xfiltval_all g filter roi ;;
  foldM (resize_separable_row src filter g roi table)
        (zrange (ybegin roi) (yend roi)) dst.

Definition resize_general (dst src : ImageBuf) (filter : Filter2D)
    (g : ResizeGeometry) (roi : ROI) : option ImageBuf :=
  let nchannels := nchannels (spec dst) in
  foldM (fun dst p =>
           pel <- general_pixel src nchannels filter g (fst p) (snd p) ;;
           Some (write_pixel dst (fst p) (snd p) pel))
        (roi_pixels roi) dst.

(** [resize_], run as one tile. *)
Definition resize_ (dst src : ImageBuf) (filter : Filter2D) (roi : ROI)
  : option (bool * ImageBuf) :=
  g <- resize_geometry dst src filter ;;
  dst <- (if separable filter
          then resize_separable dst src filter g roi
          else resize_general dst src filter g roi) ;;
  Some (true, dst).

(** *** resample: the sample counts of a deep destination *)

(** [ImageBuf::deep_samples(x, y)]: no samples outside the data window. *)
Definition sample_count (ib : ImageBuf) (x y : Z) : Z :=
  if exists_pixel ib x y then deep_samples ib x y else 0.

(** [dstpel.set_deep_samples(n)] at [(x, y)]. *)
Definition set_deep_samples (ib : ImageBuf) (x y n : Z) : ImageBuf :=
  {| initialized := initialized ib;
     spec := spec ib;
     pixel := pixel ib;
     deep_samples := fun x' y' =>
       if (x' =? x)%Z && (y' =? y)%Z then n else deep_samples ib x' y' |}.

(** The source pixel [(src_x, src_y)] of the destination pixel [(x, y)]
    in the first pass of [resample]. *)
Definition resample_src_x (dst src : ImageBuf) (x : Z) : option Z :=
  let dstpixelwidth := f1 /. of_int (full_width (spec dst)) in
  let s := (of_int (x - full_x (spec dst)) +. fhalf) *. dstpixelwidth in
  ifloor (of_int (full_x (spec src)) +. s *. of_int (full_width (spec src))).

Definition resample_src_y (dst src : ImageBuf) (y : Z) : option Z :=
  let dstpixelheight := f1 /. of_int (full_height (spec dst)) in
  let t := (of_int (y - full_y (spec dst)) +. fhalf) *. dstpixelheight in
  ifloor (of_int (full_y (spec src)) +. t *. of_int (full_height (spec src))).

(** One turn of [for (; !dstpel.done(); ++dstpel, ++srcpel)]; [dst] gives
    the geometry, [d] is the destination as the loop has left it. *)
Definition resample_count_step (dst src : ImageBuf) (d : ImageBuf)
    (p : Z * Z) : option ImageBuf :=
  src_y <- resample_src_y dst src (snd p) ;;
  src_x <- resample_src_x dst src (fst p) ;;
  Some (set_deep_samples d (fst p) (snd p) (sample_count src src_x src_y)).

(** The body of [if (dst.deep()) { ... }]: the serial pass that sets the
    sample count of every destination pixel of [roi].  [src] is read
    only. *)
Definition resample_sample_counts (dst src : ImageBuf) (roi : ROI)
  : option ImageBuf :=
  foldM (resample_count_step dst src) (roi_pixels roi) dst.

Section Resample.

(** [IBAprep] is defined in imagebufalgo.cpp and the kernel
    [resample_] is reached through a type dispatch macro; [resample]
    is modelled up to the dispatch, which receives the prepared
    destination. *)
Variable IBAprep : ROI -> ImageBuf -> ImageBuf -> option (ROI * ImageBuf).
Variable resample_kernel :
  ImageBuf -> ImageBuf -> bool -> ROI -> option (bool * ImageBuf).

(** The destination handed to the kernel. *)
Definition resample_prepare (dst src : ImageBuf) (roi : ROI)
  : option (ROI * ImageBuf) :=
  match IBAprep roi dst src with
  | None => None
  | Some (roi, dst) =>
      if deep (spec dst)
      then d <- resample_sample_counts dst src roi ;; Some (roi, d)
      else Some (roi, dst)
  end.

(** [ImageBufAlgo::resample]; the outer [option] is definedness, a
    failed [IBAprep] returns [false]. *)
Definition resample (dst src : ImageBuf) (interpolate : bool) (roi : ROI)
  : option (bool * ImageBuf) :=
  match IBAprep roi dst src with
  | None => Some (false, dst)
  | Some _ =>
      '(roi, d) <- resample_prepare dst src roi ;;
      resample_kernel d src interpolate roi
  end.

End Resample.

(** *** warp and rotate *)

(** [ROI::defined()]: the undefined ROI has [xbegin] at [INT_MIN]. *)
Definition roi_defined (roi : ROI) : bool := negb (xbegin roi =? INT_MIN).

Definition set_chend (roi : ROI) (e : Z) : ROI :=
  {| xbegin := xbegin roi; xend := xend roi;
     ybegin := ybegin roi; yend := yend roi;
     zbegin := zbegin roi; zend := zend roi;
     chbegin := chbegin roi; chend := e |}.

Definition M33f_identity : M33f :=
  {| m00 := f1; m01 := f0; m02 := f0;
     m10 := f0; m11 := f1; m12 := f0;
     m20 := f0; m21 := f0; m22 := f1 |}.

Section Warp.

(** Outside src/: [IBAprep] (imagebufalgo.cpp), [Filter2D::create]
    (filter.cpp) and the matrix operations of Imath. *)
Variable IBAprep : ROI -> ImageBuf -> ImageBuf -> option (ROI * ImageBuf).
Variable create : string -> F -> F -> option Filter2D.
Variable inverse : M33f -> M33f.
Variable M33f_translate : M33f -> V2f -> M33f.
Variable M33f_rotate : M33f -> F -> M33f.
Variable M33f_mul : M33f -> M33f -> M33f.

Definition warp_impl (dst src : ImageBuf) (M : M33f)
    (filter : option Filter2D) (recompute_roi : bool) (wrap : WrapMode)
    (edgeclamp : bool) (roi : ROI) : option (bool * ImageBuf) :=
  dst_roi <-
    (if initialized dst
     then Some (if roi_defined roi then roi else get_roi dst)
     else if roi_defined roi then Some roi
     else if recompute_roi then transform M (get_roi src)
     else Some (get_roi src)) ;;
  let dst_roi := set_chend dst_roi (Z.min (chend dst_roi)
                                          (nchannels (spec src))) in
  match IBAprep dst_roi dst src with
  | None => Some (false, dst)
  | Some (dst_roi, dst) =>
      filter <- match filter with
                | Some f => Some f
                | None => create "lanczos3" (of_int 6) (of_int 6)
                end ;;
      warp_ dst src (inverse M) filter wrap edgeclamp dst_roi
  end.

(** [ImageBufAlgo::warp] with a [Filter2D*]. *)
Definition warp (dst src : ImageBuf) (M : M33f) (filter : option Filter2D)
    (recompute_roi : bool) (wrap : WrapMode) (roi : ROI)
  : option (bool * ImageBuf) :=
  warp_impl dst src M filter recompute_roi wrap false roi.

(** The matrix [rotate] builds: the identity translated by [-center],
    rotated, and multiplied by the translation by [center]. *)
Definition rotation_matrix (angle center_x center_y : F) : M33f :=
  let M := M33f_identity in
  let M := M33f_translate M {| vx := fneg center_x; vy := fneg center_y |} in
  let M := M33f_rotate M angle in
  M33f_mul M (M33f_translate M33f_identity
                             {| vx := center_x; vy := center_y |}).

(** [ImageBufAlgo::rotate] with an explicit centre. *)
Definition rotate_about (dst src : ImageBuf) (angle center_x center_y : F)
    (filter : option Filter2D) (recompute_roi : bool) (roi : ROI)
  : option (bool * ImageBuf) :=
  warp dst src (rotation_matrix angle center_x center_y) filter
       recompute_roi WrapBlack roi.

(** The default centre of rotation. *)
Definition rotate_center_x (src : ImageBuf) : F :=
  let src_roi_full := roi_full src in
  fhalf *. of_int (xbegin src_roi_full + xend src_roi_full).

Definition rotate_center_y (src : ImageBuf) : F :=
  let src_roi_full := roi_full src in
  fhalf *. of_int (ybegin src_roi_full + yend src_roi_full).

(** [ImageBufAlgo::rotate] without a centre. *)
Definition rotate (dst src : ImageBuf) (angle : F)
    (filter : option Filter2D) (recompute_roi : bool) (roi : ROI)
  : option (bool * ImageBuf) :=
  rotate_about dst src angle (rotate_center_x src) (rotate_center_y src)
               filter recompute_roi roi.

End Warp.

End Model.

(** * The entry points and the resample kernel

    The functions of imagebufalgo_xform.cpp around the kernels: [warp],
    [resize] and [fit], by filter and by filter name, and [resample_].
    An entry point that takes a filter name reports an unknown name on
    the destination and returns [false]; its result is paired with that
    error. *)

Section EntryPoints.

Context {F : Type} {ops : FloatOps F}.

(** [a >= b] of C++. *)
Definition fgeb (a b : F) : bool := (b <. a) || (a ==. b).

(** [ROI::width()], [ROI::height()] and the default-constructed [ROI],
    which is not defined. *)
Definition roi_width (roi : ROI) : Z := xend roi - xbegin roi.
Definition roi_height (roi : ROI) : Z := yend roi - ybegin roi.

Definition ROI_undefined : ROI :=
  {| xbegin := INT_MIN; xend := 0; ybegin := 0; yend := 0;
     zbegin := 0; zend := 0; chbegin := 0; chend := 0 |}.

(** [ImageSpec::set_roi] and [ImageSpec::set_roi_full] of imageio.h
    (outside src/): the data window, and the full window, become the x
    and y ranges of the ROI. *)
Definition set_roi (s : ImageSpec) (r : ROI) : ImageSpec :=
  {| img_x := xbegin r; img_y := ybegin r;
     width := roi_width r; height := roi_height r;
     full_x := full_x s; full_y := full_y s;
     full_width := full_width s; full_height := full_height s;
     nchannels := nchannels s; deep := deep s |}.

Definition set_roi_full (s : ImageSpec) (r : ROI) : ImageSpec :=
  {| img_x := img_x s; img_y := img_y s;
     width := width s; height := height s;
     full_x := xbegin r; full_y := ybegin r;
     full_width := roi_width r; full_height := roi_height r;
     nchannels := nchannels s; deep := deep s |}.

(** An image with another [ImageSpec]: the writes through
    [dst.specmod()]. *)
Definition with_spec (ib : @ImageBuf F) (s : ImageSpec) : @ImageBuf F :=
  {| initialized := initialized ib; spec := s;
     pixel := pixel ib; deep_samples := deep_samples ib |}.

(** ** warp and rotate by filter name *)

Section ByName.

Variable registry : list (@FilterDesc F).
Variable create : string -> F -> F -> option (@Filter2D F).
Variable IBAprep : ROI -> @ImageBuf F -> @ImageBuf F -> option (ROI * @ImageBuf F).
Variable inverse : @M33f F -> @M33f F.
Variable M33f_translate : @M33f F -> @V2f F -> @M33f F.
Variable M33f_rotate : @M33f F -> F -> @M33f F.
Variable M33f_mul : @M33f F -> @M33f F -> @M33f F.

(** [filtername_.size() ? filtername_ : "lanczos3"] *)
Definition warp_filter_name (filtername_ : string) : string :=
  if (String.length filtername_ =? 0)%nat then "lanczos3"%string
  else filtername_.

(** The loop over the catalog of [warp]: the first entry of that name,
    built with the width asked for, or with its default width, on both
    axes. *)
Definition warp_filter (filtername_ : string) (filterwidth : F)
  : option (@Filter2D F) :=
  let filtername := warp_filter_name filtername_ in
  match find (fun fd => String.eqb (fd_name fd) filtername) registry with
  | Some fd =>
      let w := if f0 <. filterwidth then filterwidth else fd_width fd in
      let h := if f0 <. filterwidth then filterwidth else fd_width fd in
      create filtername w h
  | None => None
  end.

(** [ImageBufAlgo::warp] with a filter name. *)
Definition warp_named (dst src : @ImageBuf F) (M : @M33f F)
    (filtername_ : string) (filterwidth : F) (recompute_roi : bool)
    (wrap : WrapMode) (roi : ROI)
  : option (bool * @ImageBuf F) * option XformError :=
  match warp_filter filtername_ filterwidth with
  | None =>
      (Some (false, dst), Some (UnknownFilter (warp_filter_name filtername_)))
  | Some filter =>
      (warp IBAprep create inverse dst src M (Some filter) recompute_roi wrap
            roi,
       None)
  end.

(** [ImageBufAlgo::rotate] with a filter name, about a centre and about
    the default centre. *)
Definition rotate_about_named (dst src : @ImageBuf F)
    (angle center_x center_y : F) (filtername : string) (filterwidth : F)
    (recompute_roi : bool) (roi : ROI)
  : option (bool * @ImageBuf F) * option XformError :=
  warp_named dst src
    (rotation_matrix M33f_translate M33f_rotate M33f_mul
                     angle center_x center_y)
    filtername filterwidth recompute_roi WrapBlack roi.

Definition rotate_named (dst src : @ImageBuf F) (angle : F)
    (filtername : string) (filterwidth : F) (recompute_roi : bool) (roi : ROI)
  : option (bool * @ImageBuf F) * option XformError :=
  rotate_about_named dst src angle (rotate_center_x src) (rotate_center_y src)
                     filtername filterwidth recompute_roi roi.

(** ** resize *)

(** [ImageBufAlgo::resize] with a [Filter2D*]; without a filter, a
    triangle filter of width [2 * max(1, wratio)] and height
    [2 * max(1, hratio)]. *)
Definition resize (dst src : @ImageBuf F) (filter : option (@Filter2D F))
    (roi : ROI)
  : option (bool * @ImageBuf F) :=
  match IBAprep roi dst src with
  | None => Some (false, dst)
  | Some (roi, dst) =>
      filter <- match filter with
                | Some f => Some f
                | None =>
                    let wratio := resize_wratio dst src in
                    let hratio := resize_hratio dst src in
                    let w := f2 *. fmax f1 wratio in
                    let h := f2 *. fmax f1 hratio in
                    create "triangle" w h
                end ;;
      resize_ dst src filter roi
  end.

(** [ImageBufAlgo::resize] with a filter name. *)
Definition resize_named (dst src : @ImageBuf F) (filtername : string)
    (fwidth : F) (roi : ROI) : option (bool * @ImageBuf F) * option XformError :=
  match IBAprep roi dst src with
  | None => (Some (false, dst), None)
  | Some (roi, dst) =>
      let wratio := resize_wratio dst src in
      let hratio := resize_hratio dst src in
      match get_resize_filter registry create filtername fwidth wratio hratio
      with
      | (None, e) => (Some (false, dst), e)
      | (Some filter, _) => (resize dst src (Some filter) roi, None)
      end
  end.

(** ** fit *)

(** What [fit] computes before it resizes or warps. *)
Record FitGeometry := {
  resize_full_width : Z; resize_full_height : Z;
  xoffset : Z; yoffset : Z;
  xoff : F; yoff : F;
  scale : F
}.

(** The fill mode after the two [if] statements: an unknown mode is
    "letterbox", and "letterbox" is "height" or "width". *)
Definition fit_fillmode (fillmode : string) (newaspect oldaspect : F)
  : string :=
  let fillmode :=
    if negb (String.eqb fillmode "height") && negb (String.eqb fillmode "width")
    then "letterbox"%string else fillmode in
  if String.eqb fillmode "letterbox"
  then if fgeb newaspect oldaspect then "height"%string else "width"%string
  else fillmode.

Definition fit_geometry (srcspec : ImageSpec) (roi : ROI) (fillmode : string)
  : option FitGeometry :=
  let fit_full_width := roi_width roi in
  let fit_full_height := roi_height roi in
  let oldaspect :=
    of_int (full_width srcspec) /. of_int (full_height srcspec) in
  let newaspect := of_int fit_full_width /. of_int fit_full_height in
  let fillmode := fit_fillmode fillmode newaspect oldaspect in
  if String.eqb fillmode "height" then
    resize_full_width <-
      to_int (of_int fit_full_height *. oldaspect +. fhalf) ;;
    let scale := of_int fit_full_height /. of_int (full_height srcspec) in
    Some {| resize_full_width := resize_full_width;
            resize_full_height := fit_full_height;
            xoffset := Z.quot (fit_full_width - resize_full_width) 2;
            yoffset := 0;
            xoff := (of_int fit_full_width
                     -. scale *. of_int (full_width srcspec)) /. f2;
            yoff := f0;
            scale := scale |}
  else if String.eqb fillmode "width" then
    resize_full_height <-
      to_int (of_int fit_full_width /. oldaspect +. fhalf) ;;
    let scale := of_int fit_full_width /. of_int (full_width srcspec) in
    Some {| resize_full_width := fit_full_width;
            resize_full_height := resize_full_height;
            xoffset := 0;
            yoffset := Z.quot (fit_full_height - resize_full_height) 2;
            xoff := f0;
            yoff := (of_int fit_full_height
                     -. scale *. of_int (full_height srcspec)) /. f2;
            scale := scale |}
  else
    Some {| resize_full_width := fit_full_width;
            resize_full_height := fit_full_height;
            xoffset := 0; yoffset := 0; xoff := f0; yoff := f0;
            scale := f1 |}.

(** The matrix of the exact fit, [M33f(scale, 0, 0, 0, scale, 0, xoff,
    yoff, 1)]. *)
Definition fit_matrix (g : FitGeometry) : @M33f F :=
  {| m00 := scale g; m01 := f0; m02 := f0;
     m10 := f0; m11 := scale g; m12 := f0;
     m20 := xoff g; m21 := yoff g; m22 := f1 |}.

(** The last six assignments of the full pixel fit. *)
Definition fit_window (s : ImageSpec) (roi : ROI) (g : FitGeometry)
  : ImageSpec :=
  {| img_x := xoffset g; img_y := yoffset g;
     width := width s; height := height s;
     full_x := xbegin roi; full_y := ybegin roi;
     full_width := roi_width roi; full_height := roi_height roi;
     nchannels := nchannels s; deep := deep s |}.

(** [ImageBuf::reset(spec)] and [ImageBuf::copy(src)] are defined in
    imagebuf.cpp, outside src/. *)
Variable ImageBuf_reset : ImageSpec -> @ImageBuf F.
Variable ImageBuf_copy : @ImageBuf F -> @ImageBuf F -> bool * @ImageBuf F.

(** [ImageBufAlgo::fit] with a [Filter2D*]. *)
Definition fit (dst src : @ImageBuf F) (filter : option (@Filter2D F))
    (fillmode : string) (exact : bool) (roi : ROI)
  : option (bool * @ImageBuf F) :=
  match IBAprep roi dst src with
  | None => Some (false, dst)
  | Some (roi, dst) =>
      let srcspec := spec src in
      g <- fit_geometry srcspec roi fillmode ;;
      let fit_full_x := xbegin roi in
      let fit_full_y := ybegin roi in
      let newroi :=
        {| xbegin := fit_full_x; xend := fit_full_x + roi_width roi;
           ybegin := fit_full_y; yend := fit_full_y + roi_height roi;
           zbegin := 0; zend := 1;
           chbegin := 0; chend := nchannels srcspec |} in
      let filter :=
        match filter with
        | Some f => Some f
        | None =>
            let wratio := of_int (resize_full_width g)
                          /. of_int (full_width srcspec) in
            let hratio := of_int (resize_full_height g)
                          /. of_int (full_height srcspec) in
            let w := f2 *. fmax f1 wratio in
            let h := f2 *. fmax f1 hratio in
            create "triangle" w h
        end in
      if exact then
        let newspec := set_roi_full (set_roi srcspec newroi) newroi in
        let dst := ImageBuf_reset newspec in
        r <- warp_impl IBAprep create inverse dst src (fit_matrix g) filter
                       false WrapBlack true ROI_undefined ;;
        Some (true && fst r, snd r)
      else
        r <- (if negb (resize_full_width g =? full_width srcspec)
                 || negb (resize_full_height g =? full_height srcspec)
                 || negb (fit_full_x =? full_x srcspec)
                 || negb (fit_full_y =? full_y srcspec)
              then
                let resizeroi :=
                  {| xbegin := fit_full_x;
                     xend := fit_full_x + resize_full_width g;
                     ybegin := fit_full_y;
                     yend := fit_full_y + resize_full_height g;
                     zbegin := 0; zend := 1;
                     chbegin := 0; chend := nchannels srcspec |} in
                let newspec :=
                  set_roi_full (set_roi srcspec resizeroi) resizeroi in
                resize (ImageBuf_reset newspec) src filter resizeroi
              else Some (ImageBuf_copy dst src)) ;;
        Some (true && fst r,
              with_spec (snd r) (fit_window (spec (snd r)) roi g))
  end.

(** [ImageBufAlgo::fit] with a filter name. *)
Definition fit_named (dst src : @ImageBuf F) (filtername : string)
    (fwidth : F) (fillmode : string) (exact : bool) (roi : ROI)
  : option (bool * @ImageBuf F) * option XformError :=
  match IBAprep roi dst src with
  | None => (Some (false, dst), None)
  | Some (roi, dst) =>
      let wratio := resize_wratio dst src in
      let hratio := resize_hratio dst src in
      match get_resize_filter registry create filtername fwidth wratio hratio
      with
      | (None, e) => (Some (false, dst), e)
      | (Some filter, _) => (fit dst src (Some filter) fillmode exact roi, None)
      end
  end.

End ByName.

(** ** resize_, pixel by pixel *)

(** The value [resize_] computes for the output pixel [(x, y)], taken on
    its own: the taps of the column and of the row, normalized, and the
    weighted sum over the support. *)
Definition resize_pixel (dst src : @ImageBuf F) (filter : @Filter2D F)
    (g : ResizeGeometry) (x y : Z) : option (list F) :=
  let nchannels := nchannels (spec dst) in
  if separable filter then
    '(src_y, src_yf_frac) <- floorfrac (src_yf g y) ;;
    '(_, src_xf_frac) <- floorfrac (src_xf g x) ;;
    src_x <- ifloor (src_xf g x) ;;
    let yw := ytap_weights g filter src_yf_frac in
    separable_pixel src nchannels g (normalize yw) (total yw)
                    (normalize (xtap_weights g filter src_xf_frac))
                    src_x src_y
  else general_pixel src nchannels filter g x y.

(** ** resample_ *)

(** [src_xf] and [src_yf] of [resample_]: the source position of the
    destination column [x], and of the row [y]. *)
Definition resample_xf (dst src : @ImageBuf F) (x : Z) : F :=
  let srcfx := of_int (full_x (spec src)) in
  let srcfw := of_int (full_width (spec src)) in
  let dstfx := of_int (full_x (spec dst)) in
  let dstfw := of_int (full_width (spec dst)) in
  let dstpixelwidth := f1 /. dstfw in
  let s := (of_int x -. dstfx +. fhalf) *. dstpixelwidth in
  srcfx +. s *. srcfw.

Definition resample_yf (dst src : @ImageBuf F) (y : Z) : F :=
  let srcfy := of_int (full_y (spec src)) in
  let srcfh := of_int (full_height (spec src)) in
  let dstfy := of_int (full_y (spec dst)) in
  let dstfh := of_int (full_height (spec dst)) in
  let dstpixelheight := f1 /. dstfh in
  let t := (of_int y -. dstfy +. fhalf) *. dstpixelheight in
  srcfy +. t *. srcfh.

(** The channels of the pixel [srcpel] stands on after
    [srcpel.pos(src_x, src_y, 0)]; [srcpel] was built without a wrap
    mode. *)
Definition source_pixel (src : @ImageBuf F) (src_x src_y : Z) : list F :=
  map (getchannel src WrapDefault src_x src_y)
      (zrange 0 (nchannels (spec src))).

Section ResampleKernel.

(** [ImageBuf::interppixel] is defined in imagebuf.cpp and the deep
    samples are stored by [DeepData], both outside src/: the pixel
    [interppixel] writes to [pel], and the destination after the samples
    of a source pixel are copied to the pixel [(x, y)]. *)
Variable interppixel : @ImageBuf F -> F -> F -> WrapMode -> list F.
Variable copy_deep_values :
  @ImageBuf F -> Z -> Z -> @ImageBuf F -> Z -> Z -> Z -> @ImageBuf F.

(** The pixel written at [(x, y)]: the one [interppixel] computes, or the
    source pixel [(src_x, src_y)]. *)
Definition resampled_pixel (dst src : @ImageBuf F) (interpolate : bool)
    (x y src_x src_y : Z) : list F :=
  if interpolate
  then interppixel src (resample_xf dst src x) (resample_yf dst src y)
                   WrapClamp
  else source_pixel src src_x src_y.

(** The body of the loop over [x], in the row [y]. *)
Definition resample_column (dst0 src : @ImageBuf F) (interpolate : bool)
    (roi : ROI) (y : Z) (src_yf : F) (src_y : Z) (dst : @ImageBuf F) (x : Z)
  : option (@ImageBuf F) :=
  let src_xf := resample_xf dst0 src x in
  src_x <- ifloor src_xf ;;
  if deep (spec src) then
    let nsamps := sample_count src src_x src_y in
    if (nsamps =? 0) || negb (nsamps =? sample_count dst x y)
    then Some dst
    else Some (copy_deep_values dst x y src src_x src_y nsamps)
  else if interpolate then
    write_channels dst x y (interppixel src src_xf src_yf WrapClamp)
                   (zrange (chbegin roi) (chend roi))
  else
    write_channels dst x y (source_pixel src src_x src_y)
                   (zrange (chbegin roi) (chend roi)).

(** The body of the loop over [y]. *)
Definition resample_row (dst0 src : @ImageBuf F) (interpolate : bool)
    (roi : ROI) (dst : @ImageBuf F) (y : Z) : option (@ImageBuf F) :=
  let src_yf := resample_yf dst0 src y in
  src_y <- ifloor src_yf ;;
  foldM (resample_column dst0 src interpolate roi y src_yf src_y)
        (zrange (xbegin roi) (xend roi)) dst.

(** [resample_], run as one tile; [OIIO_ASSERT(src.deep() == dst.deep())]
    is a contract of the kernel. *)
Definition resample_ (dst src : @ImageBuf F) (interpolate : bool)
    (roi : ROI)
  : option (bool * @ImageBuf F) :=
  if Bool.eqb (deep (spec src)) (deep (spec dst)) then
    dst' <- foldM (resample_row dst src interpolate roi)
                  (zrange (ybegin roi) (yend roi)) dst ;;
    Some (true, dst')
  else None.

End ResampleKernel.

End EntryPoints.

(** * The claims of the specification, and test data *)

Section Claims.

Context {F : Type} {ops : FloatOps F}.

(** [a <= b] of C++ *)
Definition fleb (a b : F) : bool := (a <. b) || (a ==. b).

(** A box filter: weight 1 within half its width and height of the
    centre, 0 outside; separable. *)
Definition box_filter (w h : F) : Filter2D :=
  {| filter_name := "box";
     filter_width := w;
     filter_height := h;
     separable := true;
     filter_eval := fun x y =>
       if fleb (fabsf x) (w *. fhalf) && fleb (fabsf y) (h *. fhalf)
       then f1 else f0;
     xfilt := fun x => if fleb (fabsf x) (w *. fhalf) then f1 else f0;
     yfilt := fun y => if fleb (fabsf y) (h *. fhalf) then f1 else f0 |}.

(** A disk filter: weight 1 inside the ellipse of its width and height;
    not separable. *)
Definition disk_filter (w h : F) : Filter2D :=
  {| filter_name := "disk";
     filter_width := w;
     filter_height := h;
     separable := false;
     filter_eval := fun x y =>
       let x := x /. (w *. fhalf) in
       let y := y /. (h *. fhalf) in
       if x *. x +. y *. y <. f1 then f1 else f0;
     xfilt := fun _ => f0;
     yfilt := fun _ => f0 |}.

(** An image whose data window is [w] x [h] at the origin and whose
    full window is [fw] x [fh] at the origin. *)
Definition image (w h fw fh nc : Z) (data : Z -> Z -> Z -> F) : ImageBuf :=
  {| initialized := true;
     spec := {| img_x := 0; img_y := 0; width := w; height := h;
                full_x := 0; full_y := 0; full_width := fw; full_height := fh;
                nchannels := nc; deep := false |};
     pixel := data;
     deep_samples := fun _ _ => 0 |}.

Definition constant_image (w h nc : Z) (v : F) : ImageBuf :=
  image w h w h nc (fun _ _ _ => v).

Definition roi2d (xb xe yb ye nc : Z) : ROI :=
  {| xbegin := xb; xend := xe; ybegin := yb; yend := ye;
     zbegin := 0; zend := 1; chbegin := 0; chend := nc |}.

(** The support of [filtered_sample] as the specification words it:
    with [rt] from the filter height, the sample iterates the closed
    rectangle [floor(s-rs), ceil(s+rs)] x [floor(t-rt), ceil(t+rt)]. *)
Definition closed_support_claim (src : ImageBuf) (s t dsdx dtdx dsdy dtdy : F)
    (filter : Filter2D) (wrap : WrapMode) : Prop :=
  let ds := fmax f1 (fmax (fabsf dsdx) (fabsf dsdy)) in
  let dt := fmax f1 (fmax (fabsf dtdx) (fabsf dtdy)) in
  let rs := fhalf *. ds *. filter_width filter in
  let rt := fhalf *. dt *. filter_height filter in
  forall a b c d it,
    int_floorf (s -. rs) = Some a -> int_ceilf (s +. rs) = Some b ->
    int_floorf (t -. rt) = Some c -> int_ceilf (t +. rt) = Some d ->
    sample_iterator src s t (footprint dsdx dsdy) (footprint dtdx dtdy)
                    filter wrap false = Some it ->
    forall x y, In (x, y) (support_pixels (fst it))
                <-> (a <= x <= b /\ c <= y <= d).

(** The warp of a pixel whose homogeneous coordinate vanishes, as the
    specification words it: the pixel is emitted as zeros. *)
Definition singular_pixel_zero_claim (src : ImageBuf) (Minv : M33f)
    (filter : Filter2D) (wrap : WrapMode) (edgeclamp : bool) (x y : Z) : Prop :=
  (val (homogeneous_w Minv (dst_point_x x) (dst_point_y y)) ==. f0) = true ->
  warp_sample src Minv filter wrap edgeclamp x y
  = Some (zeros (nchannels (spec src))).

(** The separable path in closed form: what the loops over the support
    rectangle [xb, xb + xtaps) x [yb, yb + ytaps) add to [pel], each
    tap paired with the pixel it weighs. *)
Definition separable_row_sum (src : ImageBuf) (wy : F) (xb : Z)
    (xfiltval : list F) (y : Z) (pel : list F) : list F :=
  fold_left (fun pel xw =>
               let w := wy *. snd xw in
               if negb (w ==. f0) then tap_pixel src (fst xw) y w pel else pel)
            (combine (zrange xb (xb + Z.of_nat (List.length xfiltval)))
                     xfiltval)
            pel.

Definition separable_sum (src : ImageBuf) (xb yb : Z)
    (yfiltval xfiltval : list F) (pel : list F) : list F :=
  fold_left (fun pel yw =>
               if snd yw ==. f0 then pel
               else separable_row_sum src (snd yw) xb xfiltval (fst yw) pel)
            (combine (zrange yb (yb + Z.of_nat (List.length yfiltval)))
                     yfiltval)
            pel.

(** An iterator over [xb, xe) x [yb, ye) positioned at [(x, y)]. *)
Definition it_at (xb xe yb ye x y : Z) : ConstIterator :=
  it_pos (rerange xb xe yb ye) x y.

(** The non-separable path of resize as the specification words it: the
    support rectangle of the separable path,
    [src_x - radi, src_x + radi] x [src_y - radj, src_y + radj], read under
    clamp wrap in raster order; the 2D filter evaluated at each source
    pixel, at its offset from [(src_x, src_y)]; a running [totalweight];
    [sum / totalweight] at the end, zeros when [totalweight] is 0. *)
Definition general_tap_spec (src : ImageBuf) (filter : Filter2D)
    (g : ResizeGeometry) (src_x src_y : Z) (src_xf_frac src_yf_frac : F)
    (acc : list F * F) (p : Z * Z) : list F * F :=
  let i := fst p - src_x in
  let j := snd p - src_y in
  let w := filter_eval filter
             (xratio g *. (of_int i -. (src_xf_frac -. fhalf)))
             (yratio g *. (of_int j -. (src_yf_frac -. fhalf))) in
  if negb (w ==. f0)
  then (tap_pixel src (fst p) (snd p) w (fst acc), snd acc +. w)
  else acc.

Definition general_pixel_spec (src : ImageBuf) (nchannels : Z)
    (filter : Filter2D) (g : ResizeGeometry) (x y : Z) : option (list F) :=
  '(src_y, src_yf_frac) <- floorfrac (src_yf g y) ;;
  '(src_x, src_xf_frac) <- floorfrac (src_xf g x) ;;
  let acc :=
    fold_left (general_tap_spec src filter g src_x src_y
                                src_xf_frac src_yf_frac)
              (raster (src_x - radi g) (src_x + radi g + 1)
                      (src_y - radj g) (src_y + radj g + 1))
              (zeros nchannels, f0) in
  Some (if snd acc ==. f0 then zeros nchannels
        else mapi_chan (fun _ v => v /. snd acc) (fst acc)).

(** The state of the loops of the code: an iterator beside the
    accumulators. *)
Definition with_iterator (it : ConstIterator) (acc : list F * F)
  : ConstIterator * list F * F :=
  (it, fst acc, snd acc).

(** The default centre of [rotate] as the specification words it:
    [(0.5 * (xbegin + xend), 0.5 * (ybegin + ybegin))] of the source full
    window. *)
Definition rotate_center_claim (src : ImageBuf) : Prop :=
  rotate_center_x src
  = fhalf *. of_int (xbegin (roi_full src) + xend (roi_full src)) /\
  rotate_center_y src
  = fhalf *. of_int (ybegin (roi_full src) + ybegin (roi_full src)).

(** [v] is a least, or a greatest, element of [l] for [<]. *)
Definition is_min (v : F) (l : list F) : Prop :=
  In v l /\ forall u, In u l -> (u <. v) = false.

Definition is_max (v : F) (l : list F) : Prop :=
  In v l /\ forall u, In u l -> (v <. u) = false.

End Claims.


(** Test data in binary32. *)
Module Data.

Definition float : Type := Binary32.float.

Definition zero : float := f0.
Definition one : float := f1.
Definition two : float := f2.
Definition quarter : float := fhalf *. fhalf.

(** A box filter of width and height 2. *)
Definition box2 : @Filter2D float := box_filter two two.

(** A 2 x 2 image of one channel, every pixel 1. *)
Definition ones2x2 : @ImageBuf float := constant_image 2 2 1 one.

(** A 2 x 2 image of one channel, every pixel 0. *)
Definition zeros2x2 : @ImageBuf float := constant_image 2 2 1 zero.

(** An inverse matrix whose homogeneous coordinate [w = x - 0.5] vanishes
    at the centre of the destination pixels of column 0; it is the inverse
    of the projective matrix (1 0 2; 0 1 0; 0 0 -2). *)
Definition singular_at_column0 : @M33f float :=
  {| m00 := one; m01 := zero; m02 := one;
     m10 := zero; m11 := one; m12 := zero;
     m20 := zero; m21 := zero; m22 := fneg fhalf |}.

(** The translation by (10, 20). *)
Definition shift_10_20 : @M33f float :=
  {| m00 := one; m01 := zero; m02 := zero;
     m10 := zero; m11 := one; m12 := zero;
     m20 := of_int 10; m21 := of_int 20; m22 := one |}.

(** A filter catalog: names and default widths. *)
Definition blackman_harris_desc : @FilterDesc float :=
  {| fd_name := "blackman-harris"; fd_width := of_int 3 |}.

Definition catalog : list (@FilterDesc float) :=
  [ {| fd_name := "box"; fd_width := one |};
    {| fd_name := "triangle"; fd_width := two |};
    blackman_harris_desc;
    {| fd_name := "lanczos3"; fd_width := of_int 6 |} ].

Definition six : float := of_int 6.

(** A [create] that builds every filter with the shape of a box. *)
Definition create_box (name : string) (w h : float) : option (@Filter2D float) :=
  Some {| filter_name := name;
          filter_width := w;
          filter_height := h;
          separable := true;
          filter_eval := filter_eval (box_filter w h);
          xfilt := xfilt (box_filter w h);
          yfilt := yfilt (box_filter w h) |}.

(** A deep 2 x 2 source whose pixel [(x, y)] holds [x + 2 y + 1] samples,
    and a deep 4 x 4 destination without samples. *)
Definition deep_image (w h : Z) (counts : Z -> Z -> Z) : @ImageBuf float :=
  {| initialized := true;
     spec := {| img_x := 0; img_y := 0; width := w; height := h;
                full_x := 0; full_y := 0; full_width := w; full_height := h;
                nchannels := 1; deep := true |};
     pixel := fun _ _ _ => zero;
     deep_samples := counts |}.

Definition deep_src : @ImageBuf float := deep_image 2 2 (fun x y => x + 2 * y + 1).
Definition deep_dst : @ImageBuf float := deep_image 4 4 (fun _ _ => 0).

(** An [IBAprep] that accepts its arguments as they are, and a kernel
    that copies nothing. *)
Definition prep_id (roi : ROI) (dst src : @ImageBuf float)
  : option (ROI * @ImageBuf float) := Some (roi, dst).

Definition kernel_id (dst src : @ImageBuf float) (interpolate : bool)
    (roi : ROI) : option (bool * @ImageBuf float) := Some (true, dst).

(** An image whose full window is 10 x 10 at the origin. *)
Definition full10 : @ImageBuf float := image 10 10 10 10 1 (fun _ _ _ => zero).

(** A 4 x 4 source whose pixels hold their row number, a 2 x 4
    destination (half the width, the same height), and a disk filter of
    width and height 2. *)
Definition rows4x4 : @ImageBuf float :=
  image 4 4 4 4 1 (fun _ y _ => of_int y).

Definition narrow2x4 : @ImageBuf float :=
  image 2 4 2 4 1 (fun _ _ _ => zero).

Definition disk2 : @Filter2D float := disk_filter two two.

(** A box filter of width and height 1, and an 8 x 2 destination: four
    times the width of [ones2x2], the same height. *)
Definition box1 : @Filter2D float := box_filter one one.

Definition wide8x2 : @ImageBuf float := image 8 2 8 2 1 (fun _ _ _ => zero).

(** [a] is [b], its predecessor or its successor in binary32. *)
Definition within_one_ulp (a b : float) : Prop :=
  SFleb (SFpred Binary32.prec Binary32.emax b) a = true /\
  SFleb a (SFsucc Binary32.prec Binary32.emax b) = true.

(** Resize normalization as the specification words it, for a source
    that holds the constant [v]: with a separable filter whose taps are
    not negative, every pixel of the output holds [v] within 1 ulp. *)
Definition constant_resize_claim (dst src : @ImageBuf float)
    (filter : @Filter2D float) (roi : ROI) (v : float) : Prop :=
  separable filter = true ->
  (forall u, (xfilt filter u <. f0) = false) ->
  (forall u, (yfilt filter u <. f0) = false) ->
  (forall x y c, pixel src x y c = v) ->
  forall ok dst',
    resize_ dst src filter roi = Some (ok, dst') ->
    forall x y c,
      xbegin roi <= x < xend roi -> ybegin roi <= y < yend roi ->
      0 <= c < nchannels (spec dst) ->
      within_one_ulp (pixel dst' x y c) v.

End Data.


(** Further test data: values for what the code takes from outside
    src/, and images for the resize and warp examples. *)
Module Samples.

(** An [ImageBuf::reset] that allocates a black image, and an
    [ImageBuf::copy] that yields the source. *)
Definition reset (s : ImageSpec) : @ImageBuf Data.float :=
  {| initialized := true;
     spec := s;
     pixel := fun _ _ _ => Data.zero;
     deep_samples := fun _ _ => 0 |}.

Definition copy (dst src : @ImageBuf Data.float)
  : bool * @ImageBuf Data.float := (true, src).

(** An [interppixel] that yields one black channel, and a copy of deep
    values that keeps the destination. *)
Definition interp_black (src : @ImageBuf Data.float) (x y : Data.float)
    (wrap : WrapMode) : list Data.float := [Data.zero].

Definition keep_deep (dst : @ImageBuf Data.float) (x y : Z)
    (src : @ImageBuf Data.float) (src_x src_y nsamps : Z)
  : @ImageBuf Data.float := dst.

(** The float [0.1f] (13421773 * 2^-27), a 3 x 3 source that holds it
    everywhere, a 1 x 1 destination and a box filter of width and
    height 3. *)
Definition tenth : Data.float := S754_finite false 13421773 (-27).

Definition tenths3x3 : @ImageBuf Data.float := constant_image 3 3 1 tenth.

Definition dst1x1 : @ImageBuf Data.float :=
  image 1 1 1 1 1 (fun _ _ _ => Data.zero).

Definition box3 : @Filter2D Data.float := box_filter (of_int 3) (of_int 3).

(** A destination that is not initialized, and an [IBAprep] that
    allocates such a destination over the ROI, black, with the channels
    of the source. *)
Definition fresh : @ImageBuf Data.float :=
  {| initialized := false;
     spec := {| img_x := 0; img_y := 0; width := 0; height := 0;
                full_x := 0; full_y := 0; full_width := 0; full_height := 0;
                nchannels := 0; deep := false |};
     pixel := fun _ _ _ => Data.zero;
     deep_samples := fun _ _ => 0 |}.

Definition prep_alloc (roi : ROI) (dst src : @ImageBuf Data.float)
  : option (ROI * @ImageBuf Data.float) :=
  Some (roi,
        if initialized dst then dst
        else {| initialized := true;
                spec := {| img_x := xbegin roi; img_y := ybegin roi;
                           width := xend roi - xbegin roi;
                           height := yend roi - ybegin roi;
                           full_x := xbegin roi; full_y := ybegin roi;
                           full_width := xend roi - xbegin roi;
                           full_height := yend roi - ybegin roi;
                           nchannels := nchannels (spec src);
                           deep := false |};
                pixel := fun _ _ _ => Data.zero;
                deep_samples := fun _ _ => 0 |}).

(** The translation by (-10, -20), the inverse of [Data.shift_10_20]. *)
Definition shift_back : @M33f Data.float :=
  {| m00 := Data.one; m01 := Data.zero; m02 := Data.zero;
     m10 := Data.zero; m11 := Data.one; m12 := Data.zero;
     m20 := of_int (-10); m21 := of_int (-20); m22 := Data.one |}.

End Samples.

(** * Properties *)

(** ** Loop ranges and raster scans *)

Lemma in_zrange (lo hi z : Z) : In z (zrange lo hi) <-> lo <= z < hi.
Proof.
  unfold zrange. rewrite in_map_iff. split.
  - intros [k [<- Hk]]. apply in_seq in Hk. lia.
  - intros Hz. exists (Z.to_nat (z - lo)). split; [lia |].
    apply in_seq. lia.
Qed.

Lemma NoDup_zrange (lo hi : Z) : NoDup (zrange lo hi).
Proof.
  unfold zrange. apply Injective_map_NoDup.
  - intros a b Hab. lia.
  - apply seq_NoDup.
Qed.

Lemma length_zrange (lo hi : Z) : List.length (zrange lo hi) = Z.to_nat (hi - lo).
Proof. unfold zrange. now rewrite length_map, length_seq. Qed.

Lemma zrange_empty (lo hi : Z) : hi <= lo -> zrange lo hi = [].
Proof.
  intros H. unfold zrange. replace (Z.to_nat (hi - lo)) with 0%nat by lia.
  reflexivity.
Qed.

Lemma zrange_cons (lo hi : Z) :
  lo < hi -> zrange lo hi = lo :: zrange (lo + 1) hi.
Proof.
  intros H. unfold zrange.
  replace (Z.to_nat (hi - lo)) with (S (Z.to_nat (hi - (lo + 1)))) by lia.
  rewrite <- cons_seq. cbn [map]. f_equal; [lia |].
  rewrite <- seq_shift, map_map. apply map_ext. intros k. lia.
Qed.

Lemma in_raster (xb xe yb ye x y : Z) :
  In (x, y) (raster xb xe yb ye) <-> (xb <= x < xe /\ yb <= y < ye).
Proof.
  unfold raster. rewrite in_flat_map. split.
  - intros [y' [Hy Hin]]. apply in_map_iff in Hin.
    destruct Hin as [x' [Heq Hx]]. inversion Heq; subst.
    apply in_zrange in Hy. apply in_zrange in Hx. lia.
  - intros [Hx Hy]. exists y. split; [now apply in_zrange |].
    apply in_map_iff. exists x. split; [reflexivity | now apply in_zrange].
Qed.

Lemma NoDup_raster (xb xe yb ye : Z) : NoDup (raster xb xe yb ye).
Proof.
  unfold raster.
  assert (Hrows : NoDup (zrange yb ye)) by apply NoDup_zrange.
  induction (zrange yb ye) as [| y ys IH]; cbn [flat_map].
  - constructor.
  - inversion Hrows as [| ? ? Hy Hys]; subst.
    apply NoDup_app; repeat split.
    + apply Injective_map_NoDup; [| apply NoDup_zrange].
      intros a b Hab. now inversion Hab.
    + now apply IH.
    + intros [x' y'] Hin1 Hin2. apply in_map_iff in Hin1.
      destruct Hin1 as [x [Heq _]]. inversion Heq; subst.
      apply in_flat_map in Hin2. destruct Hin2 as [y2 [Hy2 Hin2]].
      apply in_map_iff in Hin2. destruct Hin2 as [x2 [Heq2 _]].
      inversion Heq2; subst. contradiction.
Qed.

Lemma clamp_between (a low high : Z) :
  low <= high -> low <= clamp a low high <= high.
Proof.
  intros H. unfold clamp.
  destruct (low <=? a) eqn:E1; [destruct (a <=? high) eqn:E2 |]; lia.
Qed.

Lemma clamp_id (a low high : Z) : low <= a <= high -> clamp a low high = a.
Proof.
  intros H. unfold clamp.
  destruct (low <=? a) eqn:E1; [destruct (a <=? high) eqn:E2 |]; lia.
Qed.

Lemma obind_Some {A B} (o : option A) (k : A -> option B) (b : B) :
  obind o k = Some b <-> exists a, o = Some a /\ k a = Some b.
Proof.
  destruct o as [a |]; cbn; split.
  - intros H. now exists a.
  - now intros [a' [[= <-] H]].
  - discriminate.
  - now intros [a' [? _]].
Qed.

(** ** filtered_sample: the footprint and its support *)

Section SampleSupport.

Context {F : Type} {ops : FloatOps F}.

Lemma sample_support_Some (s t ds dt : F) (filter : Filter2D) (sup : Support) :
  sample_support s t ds dt filter = Some sup <->
  (int_floorf (s -. filterrad_s ds filter) = Some (smin sup) /\
   int_ceilf (s +. filterrad_s ds filter) = Some (smax sup) /\
   int_floorf (t -. filterrad_t dt filter) = Some (tmin sup) /\
   int_ceilf (t +. filterrad_t dt filter) = Some (tmax sup)).
Proof.
  unfold sample_support. split.
  - intros H.
    apply obind_Some in H. destruct H as [a [Ha H]].
    apply obind_Some in H. destruct H as [b [Hb H]].
    apply obind_Some in H. destruct H as [c [Hc H]].
    apply obind_Some in H. destruct H as [d [Hd H]].
    injection H as <-. cbn. auto.
  - intros (Ha & Hb & Hc & Hd). rewrite Ha, Hb, Hc, Hd. cbn.
    now destruct sup.
Qed.

Lemma support_pixels_spec (sup : Support) (x y : Z) :
  In (x, y) (support_pixels sup) <->
  (smin sup <= x < smax sup /\ tmin sup <= y < tmax sup).
Proof. apply in_raster. Qed.

Lemma clamp_support_inside (src : @ImageBuf F) (sup : Support) (x y : Z) :
  ib_xbegin src <= ib_xend src -> ib_ybegin src <= ib_yend src ->
  In (x, y) (support_pixels (clamp_support src sup)) ->
  exists_pixel src x y = true.
Proof.
  intros Hx Hy Hin. apply support_pixels_spec in Hin. cbn in Hin.
  pose proof (clamp_between (smin sup) Hx).
  pose proof (clamp_between (smax sup) Hx).
  pose proof (clamp_between (tmin sup) Hy).
  pose proof (clamp_between (tmax sup) Hy).
  unfold exists_pixel.
  repeat (apply andb_true_intro; split); lia.
Qed.

(** C1, as amended.  With [ds = max(1, |ds/dx|, |ds/dy|)],
    [dt = max(1, |dt/dx|, |dt/dy|)] and [rs = 0.5 * ds * filter.width],
    and, for a filter as high as it is wide,
    [rt = 0.5 * dt * filter.height], a filtered sample without edge
    clamping is defined exactly when the four bounds [floor(s - rs)],
    [ceil(s + rs)], [floor(t - rt)], [ceil(t + rt)] are, and it is then
    the normalized weighted sum over the half-open rectangle
    [floor(s-rs), ceil(s+rs)) x [floor(t-rt), ceil(t+rt)): the pixels
    [(x, y)] with [floor(s-rs) <= x < ceil(s+rs)] and
    [floor(t-rt) <= y < ceil(t+rt)]. *)
Theorem filtered_sample_half_open_support
    (src : ImageBuf) (s t dsdx dtdx dsdy dtdy : F) (filter : Filter2D)
    (wrap : WrapMode) (Hsquare : filter_height filter = filter_width filter) :
  let ds := fmax f1 (fmax (fabsf dsdx) (fabsf dsdy)) in
  let dt := fmax f1 (fmax (fabsf dtdx) (fabsf dtdy)) in
  let rs := fhalf *. ds *. filter_width filter in
  let rt := fhalf *. dt *. filter_height filter in
  forall res : list F,
    filtered_sample src s t dsdx dtdx dsdy dtdy filter wrap false = Some res
    <->
    exists a b c d : Z,
      int_floorf (s -. rs) = Some a /\ int_ceilf (s +. rs) = Some b /\
      int_floorf (t -. rt) = Some c /\ int_ceilf (t +. rt) = Some d /\
      res = normalized (weighted_sum src wrap s t (f1 /. ds) (f1 /. dt)
                                     filter (raster a b c d)) /\
      forall x y, In (x, y) (raster a b c d)
                  <-> (a <= x < b /\ c <= y < d).
Proof.
  intros ds dt rs rt res.
  unfold filtered_sample, sample_iterator.
  fold ds dt. subst rt. rewrite Hsquare.
  change (fhalf *. ds *. filter_width filter) with (filterrad_s ds filter).
  change (fhalf *. dt *. filter_width filter) with (filterrad_t dt filter).
  split.
  - intros H. apply obind_Some in H. destruct H as [it [Hit H]].
    apply obind_Some in Hit. destruct Hit as [sup [Hsup Hit]].
    injection Hit as <-. injection H as <-. cbn [fst snd].
    apply sample_support_Some in Hsup.
    destruct Hsup as (Ha & Hb & Hc & Hd).
    exists (smin sup), (smax sup), (tmin sup), (tmax sup).
    split; [exact Ha |]. split; [exact Hb |]. split; [exact Hc |].
    split; [exact Hd |]. split; [reflexivity |].
    intros x y. apply in_raster.
  - intros (a & b & c & d & Ha & Hb & Hc & Hd & -> & _).
    assert (Hsup : sample_support s t ds dt filter
                   = Some {| smin := a; smax := b; tmin := c; tmax := d |})
      by (apply sample_support_Some; cbn; auto).
    subst ds dt. unfold footprint. rewrite Hsup. reflexivity.
Qed.

(** C4.  With the edge-clamp flag set, each bound of the support is
    clamped into the data window of the source, [max(begin, min(v, end))],
    before the iterator is built, so that every pixel visited lies in the
    data window; the wrap mode handed to the iterator is the caller's.
    Without the flag the support is handed over as computed. *)
Theorem edgeclamp_clamps_support_only
    (src : ImageBuf) (s t ds dt : F) (filter : Filter2D) (wrap : WrapMode)
    (sup : Support)
    (Hx : ib_xbegin src <= ib_xend src) (Hy : ib_ybegin src <= ib_yend src)
    (Hsup : sample_support s t ds dt filter = Some sup) :
  sample_iterator src s t ds dt filter wrap false = Some (sup, wrap) /\
  (exists sup',
     sample_iterator src s t ds dt filter wrap true = Some (sup', wrap) /\
     smin sup' = Z.max (ib_xbegin src) (Z.min (smin sup) (ib_xend src)) /\
     smax sup' = Z.max (ib_xbegin src) (Z.min (smax sup) (ib_xend src)) /\
     tmin sup' = Z.max (ib_ybegin src) (Z.min (tmin sup) (ib_yend src)) /\
     tmax sup' = Z.max (ib_ybegin src) (Z.min (tmax sup) (ib_yend src)) /\
     forall x y, In (x, y) (support_pixels sup') ->
                 exists_pixel src x y = true).
Proof.
  unfold sample_iterator. rewrite Hsup. cbn [obind]. split; [reflexivity |].
  exists (clamp_support src sup). split; [reflexivity |].
  assert (Hc : forall a lo hi, lo <= hi ->
               clamp a lo hi = Z.max lo (Z.min a hi)).
  { intros a lo hi Hle. unfold clamp.
    destruct (lo <=? a) eqn:E1; [destruct (a <=? hi) eqn:E2 |]; lia. }
  cbn [clamp_support smin smax tmin tmax].
  split; [now apply Hc |]. split; [now apply Hc |].
  split; [now apply Hc |]. split; [now apply Hc |].
  intros x y. now apply clamp_support_inside.
Qed.

End SampleSupport.

(** The filter of [Data.box2] is as high as it is wide, and a sample at
    [(1, 1)] of unit footprint has the bounds 0 and 2 on both axes: it
    iterates the four pixels of [0,2) x [0,2). *)
Lemma filtered_sample_half_open_support_witness :
  filter_height Data.box2 = filter_width Data.box2 /\
  (filtered_sample Data.ones2x2 Data.one Data.one Data.zero Data.zero
                   Data.zero Data.zero Data.box2 WrapBlack false
   = Some [Data.one]
   <->
   exists a b c d : Z,
     int_floorf (Data.one -. fhalf *. fmax f1 (fmax (fabsf Data.zero) (fabsf Data.zero))
                             *. filter_width Data.box2) = Some a /\
     int_ceilf (Data.one +. fhalf *. fmax f1 (fmax (fabsf Data.zero) (fabsf Data.zero))
                            *. filter_width Data.box2) = Some b /\
     int_floorf (Data.one -. fhalf *. fmax f1 (fmax (fabsf Data.zero) (fabsf Data.zero))
                             *. filter_height Data.box2) = Some c /\
     int_ceilf (Data.one +. fhalf *. fmax f1 (fmax (fabsf Data.zero) (fabsf Data.zero))
                            *. filter_height Data.box2) = Some d /\
     [Data.one]
     = normalized
         (weighted_sum Data.ones2x2 WrapBlack Data.one Data.one
            (f1 /. fmax f1 (fmax (fabsf Data.zero) (fabsf Data.zero)))
            (f1 /. fmax f1 (fmax (fabsf Data.zero) (fabsf Data.zero)))
            Data.box2 (raster a b c d)) /\
     forall x y, In (x, y) (raster a b c d) <-> (a <= x < b /\ c <= y < d)).
Proof.
  split; [reflexivity |].
  apply (@filtered_sample_half_open_support _ Binary32.ops Data.ones2x2
           Data.one Data.one Data.zero Data.zero Data.zero Data.zero
           Data.box2 WrapBlack eq_refl [Data.one]).
Defined.

(** C1 as the specification states it fails.  For the sample above the
    bounds are 0 and 2 on both axes; the closed rectangle [0,2] x [0,2]
    holds the pixel (2, 2), which the iterator over [0,2) x [0,2) does not
    visit. *)
Lemma closed_support_counterexample :
  ~ closed_support_claim Data.ones2x2 Data.one Data.one Data.zero Data.zero
      Data.zero Data.zero Data.box2 WrapBlack.
Proof.
  intros H.
  specialize (H 0 2 0 2
                ({| smin := 0; smax := 2; tmin := 0; tmax := 2 |}, WrapBlack)
                eq_refl eq_refl eq_refl eq_refl eq_refl 2 2).
  destruct H as [_ H].
  assert (Hin : In (2, 2) (raster 0 2 0 2)) by (apply H; lia).
  apply in_raster in Hin. lia.
Qed.

(** The sample of [Data.ones2x2] at the origin: the support [-1,1) on
    both axes is clamped to [0,1). *)
Lemma edgeclamp_clamps_support_only_witness :
  (ib_xbegin Data.ones2x2 <= ib_xend Data.ones2x2 /\
   ib_ybegin Data.ones2x2 <= ib_yend Data.ones2x2 /\
   sample_support Data.zero Data.zero Data.one Data.one Data.box2
   = Some {| smin := -1; smax := 1; tmin := -1; tmax := 1 |}) /\
  exists sup',
    sample_iterator Data.ones2x2 Data.zero Data.zero Data.one Data.one
                    Data.box2 WrapBlack true = Some (sup', WrapBlack) /\
    smin sup' = 0 /\ smax sup' = 1 /\ tmin sup' = 0 /\ tmax sup' = 1.
Proof.
  assert (Hx : ib_xbegin Data.ones2x2 <= ib_xend Data.ones2x2)
    by (vm_compute; discriminate).
  assert (Hy : ib_ybegin Data.ones2x2 <= ib_yend Data.ones2x2)
    by (vm_compute; discriminate).
  assert (Hsup : sample_support Data.zero Data.zero Data.one Data.one Data.box2
                 = Some {| smin := -1; smax := 1; tmin := -1; tmax := 1 |})
    by (vm_compute; reflexivity).
  split; [auto |].
  destruct (edgeclamp_clamps_support_only Data.ones2x2 Data.zero Data.zero
              Data.one Data.one Data.box2 WrapBlack Hx Hy Hsup)
    as [_ [sup' (Hit & H1 & H2 & H3 & H4 & _)]].
  exists sup'. rewrite H1, H2, H3, H4. split; [exact Hit |].
  vm_compute. auto.
Defined.

(** ** warp_ *)

Section WarpKernel.

Context {F : Type} {ops : FloatOps F}.

Lemma setchannel_other (d : @ImageBuf F) (x y c : Z) (v : F) (x' y' c' : Z) :
  ~ (x' = x /\ y' = y /\ c' = c) ->
  pixel (setchannel d x y c v) x' y' c' = pixel d x' y' c'.
Proof.
  intros Hne. cbn.
  destruct (x' =? x) eqn:Ex; cbn; [| reflexivity].
  destruct (y' =? y) eqn:Ey; cbn; [| reflexivity].
  destruct (c' =? c) eqn:Ec; cbn; [| reflexivity].
  exfalso. apply Hne. lia.
Qed.

Lemma setchannel_same (d : @ImageBuf F) (x y c : Z) (v : F) :
  pixel (setchannel d x y c v) x y c = v.
Proof. cbn. now rewrite !Z.eqb_refl. Qed.

(** What [write_channels] leaves alone and what it assigns. *)
Lemma write_channels_spec (pel : list F) (x y : Z) (chans : list Z) :
  forall d d' : @ImageBuf F,
    write_channels d x y pel chans = Some d' ->
    spec d' = spec d /\ deep_samples d' = deep_samples d /\
    (forall x' y' c', ~ (x' = x /\ y' = y /\ In c' chans) ->
                      pixel d' x' y' c' = pixel d x' y' c') /\
    (forall c, In c chans -> chan pel c = Some (pixel d' x y c)).
Proof.
  unfold write_channels.
  induction chans as [| c cs IH]; intros d d' H; cbn [foldM] in H.
  - injection H as <-. repeat split; intros; try reflexivity; contradiction.
  - apply obind_Some in H. destruct H as [d1 [H1 H]].
    unfold write_channel in H1. apply obind_Some in H1.
    destruct H1 as [v [Hv H1]]. injection H1 as <-.
    destruct (IH _ _ H) as (Hs & Hd & Hframe & Hin).
    split; [exact Hs |]. split; [exact Hd |]. split.
    + intros x' y' c' Hne. rewrite Hframe.
      * apply setchannel_other. intros (-> & -> & ->). apply Hne.
        cbn. auto.
      * intros (-> & -> & Hc). apply Hne. cbn. auto.
    + intros c0 [<- | Hc0]; [| now apply Hin].
      destruct (in_dec Z.eq_dec c cs) as [Hc | Hc]; [now apply Hin |].
      rewrite Hframe by (intros (_ & _ & Hc'); contradiction).
      now rewrite setchannel_same.
Qed.

Lemma store_result_prefix (pel res pel' : list F) (c : Z) :
  store_result pel res = Some pel' ->
  c < Z.of_nat (List.length res) -> chan pel' c = chan res c.
Proof.
  unfold store_result.
  destruct (List.length res <=? List.length pel)%nat; [| discriminate].
  intros [= <-] Hc. unfold chan.
  destruct (c <? 0) eqn:E; [reflexivity |].
  apply nth_error_app1. lia.
Qed.

(** The loop of [warp_] over a list of distinct pixels. *)
Lemma warp_loop_spec (src : ImageBuf) (Minv : M33f) (filter : Filter2D)
    (wrap : WrapMode) (edgeclamp : bool) (roi : ROI) (pixels : list (Z * Z)) :
  NoDup pixels ->
  forall (pel : list F) (d : ImageBuf) (st : list F * ImageBuf),
    foldM (warp_step src Minv filter wrap edgeclamp roi) pixels (pel, d)
    = Some st ->
    spec (snd st) = spec d /\ deep_samples (snd st) = deep_samples d /\
    (forall x y c, ~ (In (x, y) pixels /\ chbegin roi <= c < chend roi) ->
                   pixel (snd st) x y c = pixel d x y c) /\
    (forall x y c, In (x, y) pixels -> chbegin roi <= c < chend roi ->
       exists res,
         warp_sample src Minv filter wrap edgeclamp x y = Some res /\
         (c < Z.of_nat (List.length res) ->
          chan res c = Some (pixel (snd st) x y c))).
Proof.
  induction pixels as [| [px py] ps IH]; intros Hnd pel d st H;
    cbn [foldM] in H.
  - injection H as <-. cbn. repeat split; intros; try reflexivity.
    contradiction.
  - inversion Hnd as [| ? ? Hnotin Hnd']; subst.
    apply obind_Some in H. destruct H as [[pel1 d1] [Hstep H]].
    unfold warp_step in Hstep. cbn [fst snd] in Hstep.
    apply obind_Some in Hstep. destruct Hstep as [res [Hres Hstep]].
    apply obind_Some in Hstep. destruct Hstep as [pel2 [Hpel Hstep]].
    apply obind_Some in Hstep. destruct Hstep as [d2 [Hw Hstep]].
    injection Hstep as <- <-.
    apply write_channels_spec in Hw.
    destruct Hw as (Hs1 & Hd1 & Hframe1 & Hin1).
    destruct (IH Hnd' _ _ _ H) as (Hs & Hd & Hframe & Hin).
    split; [congruence |]. split; [congruence |]. split.
    + intros x y c Hne. rewrite Hframe.
      * apply Hframe1. intros (-> & -> & Hc). apply in_zrange in Hc.
        apply Hne. cbn. auto.
      * intros [Hp Hc]. apply Hne. cbn. auto.
    + intros x y c [Heq | Hp] Hc.
      * injection Heq as <- <-. exists res. split; [exact Hres |].
        intros Hlen. rewrite Hframe by (intros [Hp _]; contradiction).
        rewrite <- Hin1 by now apply in_zrange.
        symmetry. now apply store_result_prefix with (pel := pel).
      * now apply Hin.
Qed.

(** C3, as amended.  When the homogeneous coordinate [w] of a destination
    pixel is zero the quotient by [w] is not taken: the source point and
    its derivatives are all set to 0, and the pixel receives the filtered
    sample of the source at [(0, 0)] with unit footprint, whatever that
    is.  [warp_] returns [true] whenever it returns. *)
Theorem warp_singular_pixel
    (src : ImageBuf) (Minv : M33f) (filter : Filter2D) (wrap : WrapMode)
    (edgeclamp : bool) (x y : Z)
    (Hw : (val (homogeneous_w Minv (dst_point_x x) (dst_point_y y)) ==. f0)
          = true) :
  warp_source_point Minv x y = (Dual2_of_float f0, Dual2_of_float f0) /\
  warp_sample src Minv filter wrap edgeclamp x y
  = filtered_sample src f0 f0 f0 f0 f0 f0 filter wrap edgeclamp /\
  forall dst roi r,
    warp_ dst src Minv filter wrap edgeclamp roi = Some r -> fst r = true.
Proof.
  assert (Hpt : warp_source_point Minv x y
                = (Dual2_of_float f0, Dual2_of_float f0)).
  { unfold warp_source_point, robust_multVecMatrix. now rewrite Hw. }
  split; [exact Hpt |]. split.
  - unfold warp_sample. rewrite Hpt. reflexivity.
  - intros dst roi r H. unfold warp_ in H. apply obind_Some in H.
    destruct H as [st [_ H]]. now injection H as <-.
Qed.

(** C10.  [warp_] assigns, for each pixel of the ROI, the channels [c]
    with [chbegin <= c < chend] (from the filtered sample of that pixel);
    every other channel and every pixel outside the ROI keeps its value,
    and so do the specification and the sample counts of the
    destination. *)
Theorem warp_writes_only_roi_channels
    (dst src : ImageBuf) (Minv : M33f) (filter : Filter2D) (wrap : WrapMode)
    (edgeclamp : bool) (roi : ROI) (ok : bool) (dst' : ImageBuf)
    (Hrun : warp_ dst src Minv filter wrap edgeclamp roi = Some (ok, dst')) :
  (forall x y c,
     ~ (xbegin roi <= x < xend roi /\ ybegin roi <= y < yend roi /\
        chbegin roi <= c < chend roi) ->
     pixel dst' x y c = pixel dst x y c) /\
  (forall x y c,
     xbegin roi <= x < xend roi -> ybegin roi <= y < yend roi ->
     chbegin roi <= c < chend roi ->
     exists res,
       warp_sample src Minv filter wrap edgeclamp x y = Some res /\
       (c < Z.of_nat (List.length res) ->
        chan res c = Some (pixel dst' x y c))) /\
  spec dst' = spec dst /\ deep_samples dst' = deep_samples dst.
Proof.
  unfold warp_ in Hrun. apply obind_Some in Hrun.
  destruct Hrun as [st [Hloop Hrun]]. injection Hrun as <- <-.
  apply warp_loop_spec in Hloop; [| apply NoDup_raster].
  destruct Hloop as (Hs & Hd & Hframe & Hin).
  split; [| split; [| split; assumption]].
  - intros x y c Hne. apply Hframe. intros [Hp Hc]. apply Hne.
    apply in_raster in Hp. tauto.
  - intros x y c Hx Hy Hc. apply Hin; [| exact Hc].
    apply in_raster. auto.
Qed.

End WarpKernel.

(** The pixel (0, 0) under [Data.singular_at_column0] has [w = 0]; its
    sample is the one at the origin of the source, and the kernel returns
    [true]. *)
Lemma warp_singular_pixel_witness :
  (val (homogeneous_w Data.singular_at_column0
                      (dst_point_x 0) (dst_point_y 0)) ==. f0) = true /\
  warp_sample Data.ones2x2 Data.singular_at_column0 Data.box2 WrapBlack false
              0 0
  = filtered_sample Data.ones2x2 f0 f0 f0 f0 f0 f0 Data.box2 WrapBlack false /\
  exists r,
    warp_ Data.zeros2x2 Data.ones2x2 Data.singular_at_column0 Data.box2
          WrapBlack false (roi2d 0 2 0 2 1) = Some r /\ fst r = true.
Proof.
  assert (Hw : (val (homogeneous_w Data.singular_at_column0
                       (dst_point_x 0) (dst_point_y 0)) ==. f0) = true)
    by (vm_compute; reflexivity).
  split; [exact Hw |].
  destruct (warp_singular_pixel Data.ones2x2 Data.singular_at_column0
              Data.box2 WrapBlack false 0 0 Hw) as (_ & Hs & Hok).
  split; [exact Hs |].
  destruct (warp_ Data.zeros2x2 Data.ones2x2 Data.singular_at_column0
                  Data.box2 WrapBlack false (roi2d 0 2 0 2 1))
    as [r |] eqn:E.
  - exists r. split; [reflexivity |]. exact (Hok _ _ _ E).
  - vm_compute in E. discriminate E.
Defined.

(** C3 as the specification states it fails.  The source is 1 everywhere
    in its 2 x 2 window and black outside; the pixel (0, 0) has [w = 0] and
    receives the box-filtered sample at the source origin, 1/4, not 0. *)
Lemma singular_pixel_zero_counterexample :
  ~ singular_pixel_zero_claim Data.ones2x2 Data.singular_at_column0
      Data.box2 WrapBlack false 0 0.
Proof.
  intros H.
  assert (Hs : warp_sample Data.ones2x2 Data.singular_at_column0 Data.box2
                           WrapBlack false 0 0 = Some [Data.quarter])
    by (vm_compute; reflexivity).
  rewrite H in Hs by (vm_compute; reflexivity).
  vm_compute in Hs. discriminate Hs.
Qed.

(** A run of [warp_] over the 2 x 2 ROI of [Data.zeros2x2]: the pixel
    (5, 5), outside the ROI, keeps its value. *)
Lemma warp_writes_only_roi_channels_witness :
  exists ok dst',
    warp_ Data.zeros2x2 Data.ones2x2 Data.singular_at_column0 Data.box2
          WrapBlack false (roi2d 0 2 0 2 1) = Some (ok, dst') /\
    pixel dst' 5 5 0 = pixel Data.zeros2x2 5 5 0 /\
    pixel dst' 0 0 0 = Data.quarter.
Proof.
  destruct (warp_ Data.zeros2x2 Data.ones2x2 Data.singular_at_column0
                  Data.box2 WrapBlack false (roi2d 0 2 0 2 1))
    as [[ok dst'] |] eqn:E.
  - exists ok, dst'. split; [reflexivity |].
    destruct (warp_writes_only_roi_channels _ _ _ _ _ _ _ E)
      as (Hframe & Hin & _).
    split.
    + apply Hframe. cbn. lia.
    + destruct (Hin 0 0 0) as [res [Hres Hc]]; try (cbn; lia).
      assert (Hs : warp_sample Data.ones2x2 Data.singular_at_column0
                     Data.box2 WrapBlack false 0 0 = Some [Data.quarter])
        by (vm_compute; reflexivity).
      rewrite Hs in Hres. injection Hres as <-.
      specialize (Hc ltac:(cbn; lia)). cbn in Hc. now injection Hc.
  - vm_compute in E. discriminate E.
Defined.

(** ** The order of binary32 *)

Ltac cmp_cases :=
  repeat match goal with
  | H : context [Pos.compare_cont Eq ?a ?b] |- _ =>
      change (Pos.compare_cont Eq a b) with (Pos.compare a b) in H
  | |- context [Pos.compare_cont Eq ?a ?b] =>
      change (Pos.compare_cont Eq a b) with (Pos.compare a b)
  | H : context [Z.compare ?a ?b] |- _ =>
      destruct (Z.compare_spec a b); subst
  | |- context [Z.compare ?a ?b] =>
      destruct (Z.compare_spec a b); subst
  | H : context [Pos.compare ?a ?b] |- _ =>
      destruct (Pos.compare_spec a b); subst
  | |- context [Pos.compare ?a ?b] =>
      destruct (Pos.compare_spec a b); subst
  end.

Lemma binary32_lt_irrefl (a : Binary32.float) : (a <. a) = false.
Proof.
  cbn. unfold SFltb. destruct a as [s | s | | s m e]; cbn; try reflexivity.
  - now destruct s.
  - destruct s; rewrite Z.compare_refl, Pos.compare_cont_refl; reflexivity.
Qed.

Lemma binary32_lt_trans (a b c : Binary32.float) :
  (a <. b) = true -> (b <. c) = true -> (a <. c) = true.
Proof.
  cbn. unfold SFltb.
  destruct a as [sa | sa | | sa ma ea], b as [sb | sb | | sb mb eb],
           c as [sc | sc | | sc mc ec]; cbn;
    try destruct sa; try destruct sb; try destruct sc; cbn;
    try reflexivity; try discriminate; intros H1 H2;
    cmp_cases; cbn in *; try reflexivity; try discriminate; try lia.
Qed.

(** ** transform: the bounding box of the mapped corners *)

Section TransformROI.

Context {F : Type} {ops : FloatOps F}.

(** [<] is a strict order: it is one on binary32, NaN included. *)
Hypothesis flt_irrefl : forall a : F, (a <. a) = false.
Hypothesis flt_trans :
  forall a b c : F, (a <. b) = true -> (b <. c) = true -> (a <. c) = true.

Lemma lower_is_min (m p : F) (l : list F) :
  is_min m l -> is_min (lower m p) (p :: l).
Proof.
  intros [Hin Hle]. unfold lower. destruct (p <. m) eqn:E.
  - split; [now left |]. intros u [<- | Hu]; [apply flt_irrefl |].
    destruct (u <. p) eqn:Eu; [| reflexivity].
    rewrite <- (Hle u Hu). symmetry. now apply flt_trans with p.
  - split; [now right |]. intros u [<- | Hu]; [exact E | now apply Hle].
Qed.

Lemma upper_is_max (m p : F) (l : list F) :
  is_max m l -> is_max (upper m p) (p :: l).
Proof.
  intros [Hin Hle]. unfold upper. destruct (m <. p) eqn:E.
  - split; [now left |]. intros u [<- | Hu]; [apply flt_irrefl |].
    destruct (p <. u) eqn:Eu; [| reflexivity].
    rewrite <- (Hle u Hu). symmetry. now apply flt_trans with p.
  - split; [now right |]. intros u [<- | Hu]; [exact E | now apply Hle].
Qed.

Lemma is_min_singleton (v : F) : is_min v [v].
Proof.
  split; [now left |]. intros u [<- | []]. apply flt_irrefl.
Qed.

Lemma is_max_singleton (v : F) : is_max v [v].
Proof.
  split; [now left |]. intros u [<- | []]. apply flt_irrefl.
Qed.

Lemma is_min_perm (v : F) (l l' : list F) :
  (forall u, In u l <-> In u l') -> is_min v l -> is_min v l'.
Proof.
  intros Hp [Hin Hle]. split; [now apply Hp |].
  intros u Hu. apply Hle. now apply Hp.
Qed.

Lemma is_max_perm (v : F) (l l' : list F) :
  (forall u, In u l <-> In u l') -> is_max v l -> is_max v l'.
Proof.
  intros Hp [Hin Hle]. split; [now apply Hp |].
  intros u Hu. apply Hle. now apply Hp.
Qed.

(** C5.  [transform M roi] maps the centres of the four corner pixels of
    the ROI, [(xbegin + 0.5, ybegin + 0.5)], [(xend - 0.5, ybegin + 0.5)],
    [(xbegin + 0.5, yend - 0.5)] and [(xend - 0.5, yend - 0.5)], through
    [M]; with [min.x], [max.x], [min.y], [max.y] least and greatest among
    the coordinates of the four images, the result is the ROI
    [floor(min.x), floor(max.x) + 1) x [floor(min.y), floor(max.y) + 1)
    with the z range and the channel range of the argument. *)
Theorem transform_is_bounding_box (M : M33f) (roi r : ROI)
    (Hr : transform M roi = Some r) :
  let ul := multVecMatrix M {| vx := of_int (xbegin roi) +. fhalf;
                               vy := of_int (ybegin roi) +. fhalf |} in
  let ur := multVecMatrix M {| vx := of_int (xend roi) -. fhalf;
                               vy := of_int (ybegin roi) +. fhalf |} in
  let ll := multVecMatrix M {| vx := of_int (xbegin roi) +. fhalf;
                               vy := of_int (yend roi) -. fhalf |} in
  let lr := multVecMatrix M {| vx := of_int (xend roi) -. fhalf;
                               vy := of_int (yend roi) -. fhalf |} in
  let xs := [vx ul; vx ur; vx ll; vx lr] in
  let ys := [vy ul; vy ur; vy ll; vy lr] in
  exists min_x max_x min_y max_y : F,
    is_min min_x xs /\ is_max max_x xs /\
    is_min min_y ys /\ is_max max_y ys /\
    int_floorf min_x = Some (xbegin r) /\
    int_floorf max_x = Some (xend r - 1) /\
    int_floorf min_y = Some (ybegin r) /\
    int_floorf max_y = Some (yend r - 1) /\
    zbegin r = zbegin roi /\ zend r = zend roi /\
    chbegin r = chbegin roi /\ chend r = chend roi.
Proof.
  intros ul ur ll lr xs ys.
  unfold transform in Hr.
  apply obind_Some in Hr. destruct Hr as [xmin [Hxmin Hr]].
  apply obind_Some in Hr. destruct Hr as [ymin [Hymin Hr]].
  apply obind_Some in Hr. destruct Hr as [xmax [Hxmax Hr]].
  apply obind_Some in Hr. destruct Hr as [ymax [Hymax Hr]].
  injection Hr as <-. cbn [xbegin xend ybegin yend zbegin zend chbegin chend].
  replace (xmax + 1 - 1) with xmax by lia.
  replace (ymax + 1 - 1) with ymax by lia.
  set (bb := transform_box M roi) in Hxmin, Hymin, Hxmax, Hymax.
  exists (vx (bmin bb)), (vx (bmax bb)), (vy (bmin bb)), (vy (bmax bb)).
  assert (Hperm : forall (a b c d u : F),
             In u [d; c; b; a] <-> In u [a; c; b; d]) by (cbn; tauto).
  repeat match goal with |- _ /\ _ => split end;
    try assumption; try reflexivity.
  - apply is_min_perm with [vx lr; vx ur; vx ll; vx ul].
    + intros u. subst xs. cbn. tauto.
    + do 3 apply lower_is_min. apply is_min_singleton.
  - apply is_max_perm with [vx lr; vx ur; vx ll; vx ul].
    + intros u. subst xs. cbn. tauto.
    + do 3 apply upper_is_max. apply is_max_singleton.
  - apply is_min_perm with [vy lr; vy ur; vy ll; vy ul].
    + intros u. subst ys. cbn. tauto.
    + do 3 apply lower_is_min. apply is_min_singleton.
  - apply is_max_perm with [vy lr; vy ur; vy ll; vy ul].
    + intros u. subst ys. cbn. tauto.
    + do 3 apply upper_is_max. apply is_max_singleton.
Qed.

End TransformROI.

(** The 4 x 3 ROI at the origin, translated by (10, 20): the corner pixel
    centres go to 10.5 .. 13.5 and 20.5 .. 22.5, the result is
    [10, 14) x [20, 23). *)
Lemma transform_is_bounding_box_witness :
  transform Data.shift_10_20 (roi2d 0 4 0 3 3) = Some (roi2d 10 14 20 23 3) /\
  exists min_x max_x min_y max_y : Data.float,
    int_floorf min_x = Some 10 /\ int_floorf max_x = Some 13 /\
    int_floorf min_y = Some 20 /\ int_floorf max_y = Some 22.
Proof.
  assert (Hr : transform Data.shift_10_20 (roi2d 0 4 0 3 3)
               = Some (roi2d 10 14 20 23 3)) by (vm_compute; reflexivity).
  split; [exact Hr |].
  destruct (transform_is_bounding_box binary32_lt_irrefl binary32_lt_trans
              Data.shift_10_20 (roi2d 0 4 0 3 3) Hr)
    as (min_x & max_x & min_y & max_y & _ & _ & _ & _ & H1 & H2 & H3 & H4 & _).
  exists min_x, max_x, min_y, max_y. cbn in H1, H2, H3, H4. auto.
Defined.

(** ** get_resize_filter *)

Section FilterSelection.

Context {F : Type} {ops : FloatOps F}.
Variable registry : list (@FilterDesc F).
Variable create : string -> F -> F -> option (@Filter2D F).

Lemma resize_filter_name_empty (wratio hratio : F) :
  resize_filter_name EmptyString wratio hratio
  = if (f1 <. wratio) || (f1 <. hratio)
    then "blackman-harris"%string else "lanczos3"%string.
Proof. reflexivity. Qed.

Lemma resize_filter_name_given (filtername : string) (wratio hratio : F) :
  filtername <> EmptyString ->
  resize_filter_name filtername wratio hratio = filtername.
Proof.
  intros Hne. unfold resize_filter_name.
  destruct (String.eqb_spec filtername EmptyString); [contradiction | reflexivity].
Qed.

(** C6.  The name [get_resize_filter] looks up is "blackman-harris" when
    the given name is empty and [wratio > 1] or [hratio > 1], "lanczos3"
    when it is empty otherwise, and the given name when there is one.  For
    a name the catalog lists with default width [fd.width], the filter is
    created with width [fd.width * max(1, wratio)] and height
    [fd.width * max(1, hratio)] when no width [fwidth > 0] is supplied,
    and with [fwidth] for both when one is. *)
Theorem get_resize_filter_selection
    (filtername : string) (fwidth wratio hratio : F) (fd : FilterDesc)
    (Hfd : find (fun fd => String.eqb (fd_name fd)
                             (resize_filter_name filtername wratio hratio))
                registry = Some fd) :
  let name := resize_filter_name filtername wratio hratio in
  (filtername = EmptyString ->
   name = if (f1 <. wratio) || (f1 <. hratio)
          then "blackman-harris"%string else "lanczos3"%string) /\
  (filtername <> EmptyString -> name = filtername) /\
  fd_name fd = name /\
  ((f0 <. fwidth) = false ->
   fst (get_resize_filter registry create filtername fwidth wratio hratio)
   = create name (fd_width fd *. fmax f1 wratio)
                 (fd_width fd *. fmax f1 hratio)) /\
  ((f0 <. fwidth) = true ->
   fst (get_resize_filter registry create filtername fwidth wratio hratio)
   = create name fwidth fwidth).
Proof.
  intros name.
  split; [intros ->; apply resize_filter_name_empty |].
  split; [apply resize_filter_name_given |].
  split.
  { apply find_some in Hfd. destruct Hfd as [_ Heq].
    now apply String.eqb_eq in Heq. }
  subst name. unfold get_resize_filter. rewrite Hfd.
  split; intros ->; now destruct (create _ _ _).
Qed.

End FilterSelection.


(** An upsizing by 2 with no name and no width picks "blackman-harris"
    (default width 3) at width and height 6. *)
Lemma get_resize_filter_selection_witness :
  find (fun fd => String.eqb (fd_name fd)
                    (resize_filter_name EmptyString Data.two Data.two))
       Data.catalog
  = Some Data.blackman_harris_desc /\
  fst (get_resize_filter Data.catalog Data.create_box EmptyString Data.zero
                         Data.two Data.two)
  = Data.create_box "blackman-harris" Data.six Data.six.
Proof.
  assert (Hfd : find (fun fd => String.eqb (fd_name fd)
                        (resize_filter_name EmptyString Data.two Data.two))
                     Data.catalog
                = Some Data.blackman_harris_desc)
    by (vm_compute; reflexivity).
  split; [exact Hfd |].
  destruct (get_resize_filter_selection Data.catalog Data.create_box EmptyString
              Data.zero Data.two Data.two Hfd) as (_ & _ & _ & Hw & _).
  rewrite Hw by (vm_compute; reflexivity).
  f_equal; vm_compute; reflexivity.
Defined.

(** ** resample: sample counts of a deep destination *)

Section ResampleDeep.

Context {F : Type} {ops : FloatOps F}.

Lemma resample_count_loop (dst src : @ImageBuf F) (pixels : list (Z * Z)) :
  NoDup pixels ->
  forall d d' : ImageBuf,
    foldM (resample_count_step dst src) pixels d = Some d' ->
    spec d' = spec d /\
    (forall x y, ~ In (x, y) pixels ->
                 deep_samples d' x y = deep_samples d x y) /\
    (forall x y, In (x, y) pixels ->
       exists sx sy,
         resample_src_x dst src x = Some sx /\
         resample_src_y dst src y = Some sy /\
         deep_samples d' x y = sample_count src sx sy).
Proof.
  induction pixels as [| [px py] ps IH]; intros Hnd d d' H; cbn [foldM] in H.
  - injection H as <-. repeat split; intros; try reflexivity; contradiction.
  - inversion Hnd as [| ? ? Hnotin Hnd']; subst.
    apply obind_Some in H. destruct H as [d1 [Hstep H]].
    unfold resample_count_step in Hstep. cbn [fst snd] in Hstep.
    apply obind_Some in Hstep. destruct Hstep as [sy [Hsy Hstep]].
    apply obind_Some in Hstep. destruct Hstep as [sx [Hsx Hstep]].
    injection Hstep as <-.
    destruct (IH Hnd' _ _ H) as (Hs & Hout & Hin).
    split; [exact Hs |]. split.
    + intros x y Hno. rewrite Hout by (intros Hp; apply Hno; now right).
      cbn. destruct (x =? px) eqn:Ex; cbn; [| reflexivity].
      destruct (y =? py) eqn:Ey; cbn; [| reflexivity].
      exfalso. apply Hno. left. f_equal; lia.
    + intros x y [Heq | Hp]; [| now apply Hin].
      injection Heq as <- <-. exists sx, sy.
      split; [exact Hsx |]. split; [exact Hsy |].
      rewrite Hout by exact Hnotin. cbn. now rewrite !Z.eqb_refl.
Qed.

Lemma resample_count_loop_defined (dst src : @ImageBuf F)
    (pixels : list (Z * Z)) :
  (forall x y, In (x, y) pixels ->
     exists sx sy, resample_src_x dst src x = Some sx /\
                   resample_src_y dst src y = Some sy) ->
  forall d : ImageBuf,
    exists d', foldM (resample_count_step dst src) pixels d = Some d'.
Proof.
  induction pixels as [| [px py] ps IH]; intros Hdef d; cbn [foldM].
  - now exists d.
  - destruct (Hdef px py (or_introl eq_refl)) as (sx & sy & Hsx & Hsy).
    unfold resample_count_step at 1. cbn [fst snd]. rewrite Hsx, Hsy.
    cbn [obind]. apply IH. intros x y Hp. apply Hdef. now right.
Qed.

Variable IBAprep : ROI -> @ImageBuf F -> @ImageBuf F -> option (ROI * @ImageBuf F).
Variable resample_kernel :
  @ImageBuf F -> @ImageBuf F -> bool -> ROI -> option (bool * @ImageBuf F).

(** C7.  When the prepared destination [dst0] is deep and the source
    pixel [(src_x, src_y)] of every destination pixel of the ROI is
    defined, [src_x = floor(src_full_x + s * src_full_width)] and
    [src_y = floor(src_full_y + t * src_full_height)] for the NDC
    coordinates [(s, t)] of the destination pixel, the destination [dst1]
    that [resample] hands to the copying kernel has, at every pixel
    [(x, y)] of the ROI, the sample count of the source at
    [(src_x, src_y)]. *)
Theorem resample_sets_deep_sample_counts
    (dst src dst0 : ImageBuf) (interpolate : bool) (roi roi' : ROI)
    (Hprep : IBAprep roi dst src = Some (roi', dst0))
    (Hdeep : deep (spec dst0) = true)
    (Hdef : forall x y, In (x, y) (roi_pixels roi') ->
              exists sx sy, resample_src_x dst0 src x = Some sx /\
                            resample_src_y dst0 src y = Some sy) :
  exists dst1,
    resample IBAprep resample_kernel dst src interpolate roi
    = resample_kernel dst1 src interpolate roi' /\
    spec dst1 = spec dst0 /\
    forall x y,
      xbegin roi' <= x < xend roi' -> ybegin roi' <= y < yend roi' ->
      let s := (of_int (x - full_x (spec dst0)) +. fhalf)
               *. (f1 /. of_int (full_width (spec dst0))) in
      let t := (of_int (y - full_y (spec dst0)) +. fhalf)
               *. (f1 /. of_int (full_height (spec dst0))) in
      exists src_x src_y,
        int_floorf (of_int (full_x (spec src))
                    +. s *. of_int (full_width (spec src))) = Some src_x /\
        int_floorf (of_int (full_y (spec src))
                    +. t *. of_int (full_height (spec src))) = Some src_y /\
        deep_samples dst1 x y = sample_count src src_x src_y /\
        (exists_pixel dst0 x y = true ->
         sample_count dst1 x y = sample_count src src_x src_y).
Proof.
  destruct (resample_count_loop_defined dst0 src (roi_pixels roi') Hdef dst0)
    as [dst1 Hloop].
  exists dst1.
  assert (Hrun : resample IBAprep resample_kernel dst src interpolate roi
                 = resample_kernel dst1 src interpolate roi').
  { unfold resample, resample_prepare, resample_sample_counts.
    rewrite Hprep, Hdeep, Hloop. reflexivity. }
  split; [exact Hrun |].
  apply resample_count_loop in Hloop; [| apply NoDup_raster].
  destruct Hloop as (Hs & _ & Hin).
  split; [exact Hs |].
  intros x y Hx Hy s t.
  destruct (Hin x y) as (sx & sy & Hsx & Hsy & Hc);
    [apply in_raster; auto |].
  exists sx, sy. split; [exact Hsx |]. split; [exact Hsy |].
  split; [exact Hc |].
  intros He. unfold sample_count at 1.
  unfold exists_pixel, ib_xbegin, ib_xend, ib_ybegin, ib_yend in * .
  rewrite Hs, He. exact Hc.
Qed.

End ResampleDeep.

(** Resampling the deep 2 x 2 source into the 4 x 4 destination: the
    destination pixel (3, 2) takes the count of the source pixel (1, 1). *)
Lemma resample_sets_deep_sample_counts_witness :
  (Data.prep_id (roi2d 0 4 0 4 1) Data.deep_dst Data.deep_src
   = Some (roi2d 0 4 0 4 1, Data.deep_dst) /\
   deep (spec Data.deep_dst) = true) /\
  exists dst1,
    resample Data.prep_id Data.kernel_id Data.deep_dst Data.deep_src false
             (roi2d 0 4 0 4 1)
    = Data.kernel_id dst1 Data.deep_src false (roi2d 0 4 0 4 1) /\
    sample_count dst1 3 2 = 4.
Proof.
  split; [split; reflexivity |].
  assert (Hdef : forall x y, In (x, y) (roi_pixels (roi2d 0 4 0 4 1)) ->
            exists sx sy, resample_src_x Data.deep_dst Data.deep_src x = Some sx /\
                          resample_src_y Data.deep_dst Data.deep_src y = Some sy).
  { intros x y Hin. apply in_raster in Hin. cbn in Hin.
    assert (Hx : x = 0 \/ x = 1 \/ x = 2 \/ x = 3) by lia.
    assert (Hy : y = 0 \/ y = 1 \/ y = 2 \/ y = 3) by lia.
    destruct Hx as [-> | [-> | [-> | ->]]];
      destruct Hy as [-> | [-> | [-> | ->]]];
      eexists; eexists; split; vm_compute; reflexivity. }
  destruct (resample_sets_deep_sample_counts Data.prep_id Data.kernel_id
              Data.deep_dst Data.deep_src false (roi2d 0 4 0 4 1)
              eq_refl eq_refl Hdef) as [dst1 (Hrun & _ & Hcount)].
  exists dst1. split; [exact Hrun |].
  destruct (Hcount 3 2 ltac:(cbn; lia) ltac:(cbn; lia))
    as (sx & sy & Hsx & Hsy & _ & Hc).
  rewrite Hc by reflexivity.
  vm_compute in Hsx, Hsy. injection Hsx as <-. injection Hsy as <-.
  reflexivity.
Defined.

(** ** rotate *)

Section Rotate.

Context {F : Type} {ops : FloatOps F}.
Variable IBAprep : ROI -> @ImageBuf F -> @ImageBuf F -> option (ROI * @ImageBuf F).
Variable create : string -> F -> F -> option (@Filter2D F).
Variable inverse : @M33f F -> @M33f F.
Variable M33f_translate : @M33f F -> @V2f F -> @M33f F.
Variable M33f_rotate : @M33f F -> F -> @M33f F.
Variable M33f_mul : @M33f F -> @M33f F -> @M33f F.

(** C9, as amended.  [rotate] without a centre is [warp] with wrap mode
    Black and the matrix that translates by [-c], rotates by the angle and
    translates by [c] (points are row vectors in Imath: [T(-c) R T(c)],
    the product written [T(c) R(angle) T(-c)] for column vectors), where
    [c = (0.5 * (xbegin + xend), 0.5 * (ybegin + yend))] is the centre of
    the full window of the source. *)
Theorem rotate_is_warp_about_center
    (dst src : ImageBuf) (angle : F) (filter : option Filter2D)
    (recompute_roi : bool) (roi : ROI) :
  let full := spec src in
  let cx := fhalf *. of_int (full_x full + (full_x full + full_width full)) in
  let cy := fhalf *. of_int (full_y full + (full_y full + full_height full)) in
  let T_minus_c :=
    M33f_translate M33f_identity {| vx := fneg cx; vy := fneg cy |} in
  let T_c := M33f_translate M33f_identity {| vx := cx; vy := cy |} in
  rotate IBAprep create inverse M33f_translate M33f_rotate M33f_mul
         dst src angle filter recompute_roi roi
  = warp IBAprep create inverse dst src
         (M33f_mul (M33f_rotate T_minus_c angle) T_c)
         filter recompute_roi WrapBlack roi.
Proof. reflexivity. Qed.

End Rotate.

(** C9 as the specification states it fails: for a full window of
    [0, 10) x [0, 10) the centre is (5, 5), and 0.5 * (ybegin + ybegin)
    is 0. *)
Lemma rotate_center_counterexample : ~ rotate_center_claim Data.full10.
Proof.
  intros [_ H]. vm_compute in H. discriminate H.
Qed.

(** ** resize_: the iterator and the loops of the separable path *)

Section IteratorScan.

Context {F : Type} {ops : FloatOps F}.

Lemma it_at_valid (xb xe yb ye x y : Z) :
  xb <= x < xe -> yb <= y < ye -> it_valid (it_at xb xe yb ye x y) = true.
Proof.
  intros Hx Hy. cbn. unfold in_range.
  repeat (apply andb_true_intro; split); lia.
Qed.

Lemma rerange_it_at (xb xe yb ye : Z) :
  rerange xb xe yb ye = it_at xb xe yb ye xb yb.
Proof. reflexivity. Qed.

Lemma it_incr_in_row (xb xe yb ye x y : Z) :
  x + 1 < xe ->
  it_incr (it_at xb xe yb ye x y) = it_at xb xe yb ye (x + 1) y.
Proof.
  intros Hx. unfold it_incr, it_at. cbn.
  destruct (x + 1 <? xe) eqn:E; [reflexivity | lia].
Qed.

Lemma it_incr_next_row (xb xe yb ye y : Z) :
  y + 1 < ye ->
  it_incr (it_at xb xe yb ye (xe - 1) y) = it_at xb xe yb ye xb (y + 1).
Proof.
  intros Hy. unfold it_incr, it_at. cbn.
  destruct (xe - 1 + 1 <? xe) eqn:E; [lia |].
  destruct (y + 1 <? ye) eqn:E'; [reflexivity | lia].
Qed.





End IteratorScan.

(** ** resize_: what the separable path writes *)

Section ResizeWrites.

Context {F : Type} {ops : FloatOps F}.

Lemma chan_Some_range (a : list F) (c : Z) (v : F) :
  chan a c = Some v -> 0 <= c < Z.of_nat (List.length a).
Proof.
  unfold chan. destruct (c <? 0) eqn:E; [discriminate |].
  intros H.
  assert (Hn : nth_error a (Z.to_nat c) <> None) by congruence.
  apply nth_error_Some in Hn. lia.
Qed.


Lemma length_mapi_chan (f : Z -> F -> F) (a : list F) :
  List.length (mapi_chan f a) = List.length a.
Proof.
  unfold mapi_chan. rewrite length_map, length_combine, length_zrange. lia.
Qed.

Lemma length_zeros (nc : Z) : List.length (@zeros F _ nc) = Z.to_nat nc.
Proof.
  unfold zeros. rewrite length_map, length_zrange. f_equal. lia.
Qed.

Lemma combine_zrange_nth (a : list F) :
  forall (c0 : Z) (n : nat),
    nth_error (combine (zrange c0 (c0 + Z.of_nat (List.length a))) a) n
    = option_map (fun v => (c0 + Z.of_nat n, v)) (nth_error a n).
Proof.
  induction a as [| v a IH]; intros c0 n.
  - rewrite combine_nil. now destruct n.
  - replace (c0 + Z.of_nat (List.length (v :: a)))
      with (c0 + 1 + Z.of_nat (List.length a))
      by (simpl List.length; lia).
    rewrite zrange_cons by lia. cbn [combine].
    destruct n as [| n]; cbn [nth_error option_map].
    + do 2 f_equal. lia.
    + rewrite IH. destruct (nth_error a n); cbn [option_map];
        [do 2 f_equal; lia | reflexivity].
Qed.

Lemma chan_mapi_chan (f : Z -> F -> F) (a : list F) (c : Z) :
  chan (mapi_chan f a) c = option_map (f c) (chan a c).
Proof.
  unfold chan. destruct (c <? 0) eqn:E; [reflexivity |].
  unfold mapi_chan. rewrite nth_error_map.
  pose proof (combine_zrange_nth a 0 (Z.to_nat c)) as Hn.
  change (0 + Z.of_nat (List.length a)) with (Z.of_nat (List.length a)) in Hn.
  rewrite Hn.
  destruct (nth_error a (Z.to_nat c)); cbn [option_map fst snd];
    [| reflexivity].
  do 2 f_equal. lia.
Qed.

Lemma chan_zeros (nc c : Z) : 0 <= c < nc -> chan (zeros nc) c = Some f0.
Proof.
  intros Hc. unfold chan. destruct (c <? 0) eqn:E; [lia |].
  unfold zeros. rewrite nth_error_map.
  destruct (nth_error (zrange 0 nc) (Z.to_nat c)) eqn:En; [reflexivity |].
  apply nth_error_None in En. rewrite length_zrange in En. lia.
Qed.

(** [write_pixel] assigns the channels of one pixel and nothing else. *)
Lemma write_pixel_other (pel : list F) (x y : Z) :
  forall (c0 : Z) (d : @ImageBuf F) (x' y' c' : Z),
    ~ (x' = x /\ y' = y) ->
    pixel (fold_left (fun d cv => setchannel d x y (fst cv) (snd cv))
                     (combine (zrange c0 (c0 + Z.of_nat (List.length pel))) pel)
                     d)
          x' y' c'
    = pixel d x' y' c'.
Proof.
  induction pel as [| v pel IH]; intros c0 d x' y' c' Hne.
  - rewrite combine_nil. reflexivity.
  - replace (c0 + Z.of_nat (List.length (v :: pel)))
      with (c0 + 1 + Z.of_nat (List.length pel))
      by (simpl List.length; lia).
    rewrite zrange_cons by lia. cbn [combine fold_left fst snd].
    rewrite IH by exact Hne.
    cbn. destruct (x' =? x) eqn:Ex; cbn; [| reflexivity].
    destruct (y' =? y) eqn:Ey; cbn; [| reflexivity].
    exfalso. apply Hne. lia.
Qed.

Lemma write_pixel_same (pel : list F) (x y : Z) :
  forall (c0 : Z) (d : @ImageBuf F) (c : Z) (v : F),
    c0 <= c -> nth_error pel (Z.to_nat (c - c0)) = Some v ->
    pixel (fold_left (fun d cv => setchannel d x y (fst cv) (snd cv))
                     (combine (zrange c0 (c0 + Z.of_nat (List.length pel))) pel)
                     d)
          x y c
    = v.
Proof.
  induction pel as [| v0 pel IH]; intros c0 d c v Hc Hv.
  - now destruct (Z.to_nat (c - c0)).
  - replace (c0 + Z.of_nat (List.length (v0 :: pel)))
      with (c0 + 1 + Z.of_nat (List.length pel))
      by (simpl List.length; lia).
    rewrite zrange_cons by lia. cbn [combine fold_left fst snd].
    destruct (Z.eq_dec c c0) as [-> | Hne].
    + replace (Z.to_nat (c0 - c0)) with 0%nat in Hv by lia.
      cbn in Hv. injection Hv as ->.
      clear IH.
      assert (Hkeep : forall (l : list F) (c1 : Z) (d1 : @ImageBuf F),
                 c0 < c1 ->
                 pixel (fold_left
                          (fun d cv => setchannel d x y (fst cv) (snd cv))
                          (combine (zrange c1 (c1 + Z.of_nat (List.length l))) l)
                          d1) x y c0
                 = pixel d1 x y c0).
      { induction l as [| u l IHl]; intros c1 d1 Hlt.
        - rewrite combine_nil. reflexivity.
        - replace (c1 + Z.of_nat (List.length (u :: l)))
            with (c1 + 1 + Z.of_nat (List.length l))
            by (simpl List.length; lia).
          rewrite zrange_cons by lia. cbn [combine fold_left fst snd].
          rewrite IHl by lia. apply setchannel_other. lia. }
      rewrite Hkeep by lia. apply setchannel_same.
    + apply IH; [lia |].
      replace (Z.to_nat (c - c0)) with (S (Z.to_nat (c - (c0 + 1)))) in Hv
        by lia.
      exact Hv.
Qed.

Lemma write_pixel_spec (d : @ImageBuf F) (x y : Z) (pel : list F) :
  spec (write_pixel d x y pel) = spec d /\
  (forall x' y' c', ~ (x' = x /\ y' = y) ->
     pixel (write_pixel d x y pel) x' y' c' = pixel d x' y' c') /\
  (forall c v, chan pel c = Some v -> pixel (write_pixel d x y pel) x y c = v).
Proof.
  unfold write_pixel. split; [| split].
  - generalize (combine (zrange 0 (Z.of_nat (List.length pel))) pel).
    intros l. revert d. induction l as [| cv l IH]; intros d;
      [reflexivity |].
    cbn [fold_left]. now rewrite IH.
  - intros x' y' c' Hne.
    now apply write_pixel_other with (c0 := 0).
  - intros c v Hv. unfold chan in Hv.
    destruct (c <? 0) eqn:E; [discriminate |].
    apply write_pixel_same with (c0 := 0); [lia |].
    now replace (c - 0) with c by lia.
Qed.

End ResizeWrites.

Section ResizeSeparableLoop.

Context {F : Type} {ops : FloatOps F}.

Lemma mapM_combine {A B} (f : A -> option B) :
  forall (l : list A) (t : list B),
    mapM f l = Some t ->
    map fst (combine l t) = l /\
    forall a b, In (a, b) (combine l t) -> f a = Some b.
Proof.
  induction l as [| a l IH]; intros t H; cbn [mapM] in H.
  - injection H as <-. split; [reflexivity | intros ? ? []].
  - apply obind_Some in H. destruct H as [b [Hb H]].
    apply obind_Some in H. destruct H as [bs [Hbs H]].
    injection H as <-. destruct (IH _ Hbs) as [Hfst Hin].
    cbn [combine map fst]. split; [now rewrite Hfst |].
    intros a' b' [Heq | Hin']; [now injection Heq as <- <- | now apply Hin].
Qed.



End ResizeSeparableLoop.

(** ** resize_: the separable path, tap by tap *)

Section ResizeSeparableValue.

Context {F : Type} {ops : FloatOps F}.










End ResizeSeparableValue.



(** ** resize_: the non-separable path *)

(** C2 fails on the code.  Resizing the 4 x 4 source that holds its row
    numbers to 2 x 4 with a disk filter of width 2 gives [radi = 2] and
    [radj = 1].  The code ranges the iterator over the rows
    [src_y - radi .. src_y + radi], so that the taps of the rows
    [src_y - 1 .. src_y + 1] weigh the pixels of the rows
    [src_y - 2 .. src_y]: column 0 of the output reads 0, 0, 1, 2 where
    the rectangle of the claim gives 0, 1, 2, 3, and the iterator is not
    exhausted after the loops. *)
Theorem general_path_reads_wrong_rows :
  option_map (fun g => (radi g, radj g))
    (resize_geometry Data.narrow2x4 Data.rows4x4 Data.disk2) = Some (2, 1) /\
  option_map (fun r => map (fun y => pixel (snd r) 0 y 0) [0; 1; 2; 3])
    (resize_ Data.narrow2x4 Data.rows4x4 Data.disk2 (roi2d 0 2 0 4 1))
  = Some [of_int 0; of_int 0; of_int 1; of_int 2] /\
  (g <- resize_geometry Data.narrow2x4 Data.rows4x4 Data.disk2 ;;
   mapM (fun y => general_pixel_spec Data.rows4x4 1 Data.disk2 g 0 y)
        [0; 1; 2; 3])
  = Some [[of_int 0]; [of_int 1]; [of_int 2]; [of_int 3]] /\
  (g <- resize_geometry Data.narrow2x4 Data.rows4x4 Data.disk2 ;;
   '(sy, fy) <- floorfrac (src_yf g 1) ;;
   '(sx, fx) <- floorfrac (src_xf g 0) ;;
   st <- general_taps Data.rows4x4 Data.disk2 g fx fy
           (rerange (sx - radi g) (sx + radi g + 1)
                    (sy - radi g) (sy + radi g + 1), zeros 1, f0) ;;
   Some (it_done (fst (fst st))))
  = Some false.
Proof. repeat split; vm_compute; reflexivity. Qed.

Section GeneralPathScan.

Context {F : Type} {ops : FloatOps F}.

(** One tap of the code is one tap of the claim when the iterator stands
    on the pixel at the offset [(i, j)] from [(sx, sy)]. *)
Lemma general_tap_step (src : @ImageBuf F) (filter : Filter2D)
    (g : ResizeGeometry) (sx sy : Z) (fx fy : F) (it : ConstIterator)
    (acc : list F * F) (i j : Z) :
  it_valid it = true -> it_x it = sx + i -> it_y it = sy + j ->
  general_tap src filter g fx fy j (with_iterator it acc) i
  = Some (with_iterator (it_incr it)
            (general_tap_spec src filter g sx sy fx fy acc (sx + i, sy + j))).
Proof.
  intros Hv Hx Hy. destruct acc as [pel tw].
  unfold general_tap, general_tap_spec, with_iterator, accumulate.
  cbn [fst snd]. rewrite Hv, Hx, Hy.
  replace (sx + i - sx) with i by lia.
  replace (sy + j - sy) with j by lia.
  destruct (negb (_ ==. f0)); reflexivity.
Qed.

(** The innermost loop of the non-separable path in the row [sy + j] of an
    iterator whose columns are those of the support, from the offset
    [i0] on. *)
Lemma general_row_scan (src : @ImageBuf F) (filter : Filter2D)
    (g : ResizeGeometry) (sx sy : Z) (fx fy : F) (yb ye j : Z)
    (Hy : yb <= sy + j < ye) :
  forall (n : nat) (i0 : Z) (acc : list F * F),
    Z.of_nat n = radi g + 1 - i0 -> (0 < n)%nat -> - radi g <= i0 ->
    foldM (general_tap src filter g fx fy j) (zrange i0 (radi g + 1))
          (with_iterator
             (it_at (sx - radi g) (sx + radi g + 1) yb ye (sx + i0) (sy + j))
             acc)
    = Some (with_iterator
              (it_incr (it_at (sx - radi g) (sx + radi g + 1) yb ye
                              (sx + radi g + 1 - 1) (sy + j)))
              (fold_left (general_tap_spec src filter g sx sy fx fy)
                         (map (fun x => (x, sy + j))
                              (zrange (sx + i0) (sx + radi g + 1)))
                         acc)).
Proof.
  induction n as [| n IH]; intros i0 acc Hn Hpos Hi0; [lia |].
  rewrite (zrange_cons (lo := i0)) by lia.
  rewrite (zrange_cons (lo := sx + i0)) by lia.
  cbn [foldM map fold_left].
  rewrite (general_tap_step src filter g sx sy fx fy)
    by (try reflexivity; apply it_at_valid; lia).
  cbn [obind].
  destruct n as [| n'].
  - (* the last column of the row *)
    assert (Hlast : i0 = radi g) by lia. subst i0.
    rewrite (zrange_empty (lo := radi g + 1)) by lia.
    rewrite (zrange_empty (lo := sx + radi g + 1)) by lia.
    replace (sx + radi g + 1 - 1) with (sx + radi g) by lia.
    reflexivity.
  - rewrite it_incr_in_row by lia.
    replace (sx + i0 + 1) with (sx + (i0 + 1)) by lia.
    rewrite IH by lia. reflexivity.
Qed.

(** The loop over the rows, when the rows of the iterator are those of
    the support: the iterator is valid at every tap and exhausted after
    the last one. *)
Lemma general_rows_scan (src : @ImageBuf F) (filter : Filter2D)
    (g : ResizeGeometry) (sx sy : Z) (fx fy : F) (Hr : 0 <= radi g) :
  forall (n : nat) (j0 : Z) (it : ConstIterator) (acc : list F * F),
    Z.of_nat n = radj g + 1 - j0 -> - radj g <= j0 ->
    ((0 < n)%nat ->
     it = it_at (sx - radi g) (sx + radi g + 1) (sy - radj g) (sy + radj g + 1)
                (sx - radi g) (sy + j0)) ->
    exists it',
      foldM (fun st j =>
               foldM (general_tap src filter g fx fy j)
                     (zrange (- radi g) (radi g + 1)) st)
            (zrange j0 (radj g + 1)) (with_iterator it acc)
      = Some (with_iterator it'
                (fold_left (general_tap_spec src filter g sx sy fx fy)
                           (raster (sx - radi g) (sx + radi g + 1)
                                   (sy + j0) (sy + radj g + 1))
                           acc)) /\
      ((0 < n)%nat -> it_done it' = true).
Proof.
  induction n as [| n IH]; intros j0 it acc Hn Hj0 Hit.
  - rewrite (zrange_empty (lo := j0)) by lia.
    unfold raster. rewrite (zrange_empty (lo := sy + j0)) by lia.
    exists it. split; [reflexivity | lia].
  - rewrite (Hit ltac:(lia)).
    rewrite (zrange_cons (lo := j0)) by lia.
    unfold raster. rewrite (zrange_cons (lo := sy + j0)) by lia.
    cbn [foldM flat_map]. rewrite fold_left_app.
    replace (sx - radi g) with (sx + - radi g) at 3 by lia.
    assert (Hrow : sy - radj g <= sy + j0 < sy + radj g + 1) by lia.
    rewrite (@general_row_scan src filter g sx sy fx fy _ _ j0 Hrow
               (Z.to_nat (2 * radi g + 1)))
      by lia.
    cbn [obind].
    replace (sx + - radi g) with (sx - radi g) by lia.
    destruct (IH (j0 + 1)
                 (it_incr (it_at (sx - radi g) (sx + radi g + 1)
                                 (sy - radj g) (sy + radj g + 1)
                                 (sx + radi g + 1 - 1) (sy + j0)))
                 (fold_left (general_tap_spec src filter g sx sy fx fy)
                            (map (fun x => (x, sy + j0))
                                 (zrange (sx - radi g) (sx + radi g + 1)))
                            acc)
                 ltac:(lia) ltac:(lia)) as [it' [Hrest Hdone]].
    + intros Hpos. rewrite it_incr_next_row by lia.
      f_equal. lia.
    + exists it'. split.
      * rewrite Hrest.
        replace (sy + (j0 + 1)) with (sy + j0 + 1) by lia.
        reflexivity.
      * intros _. destruct n as [| n'].
        -- (* the last row: the iterator leaves its range *)
           rewrite (zrange_empty (lo := j0 + 1)) in Hrest by lia.
           cbn [foldM] in Hrest. injection Hrest as <- _ _.
           unfold it_done, it_incr, it_at. cbn.
           destruct (sx + radi g + 1 - 1 + 1 <? sx + radi g + 1) eqn:E1;
             [lia |].
           destruct (sy + j0 + 1 <? sy + radj g + 1) eqn:E2; [lia |].
           reflexivity.
        -- apply Hdone. lia.
Qed.

(** X3.  Where the two radii agree, the value the non-separable path of
    [resize_] computes for an output pixel is the weighted mean over the
    rectangle [src_x - radi, src_x + radi] x [src_y - radj, src_y + radj]
    of the source, read in raster order under clamp wrap: each tap weighs
    the pixel at its own offset from [(src_x, src_y)], taps of weight 0
    are skipped, and the pixel is 0 where the weights sum to 0. *)
Theorem general_pixel_agrees (src : @ImageBuf F) (nch : Z)
    (filter : Filter2D) (g : ResizeGeometry) (x y : Z)
    (Hr : 0 <= radi g) (Heq : radi g = radj g) :
  general_pixel src nch filter g x y = general_pixel_spec src nch filter g x y.
Proof.
  unfold general_pixel, general_pixel_spec.
  destruct (floorfrac (src_yf g y)) as [[sy fy] |]; [| reflexivity].
  destruct (floorfrac (src_xf g x)) as [[sx fx] |]; [| reflexivity].
  cbn [obind]. unfold general_taps.
  destruct (@general_rows_scan src filter g sx sy fx fy Hr
              (Z.to_nat (2 * radj g + 1)) (- radj g)
              (rerange (sx - radi g) (sx + radi g + 1)
                       (sy - radi g) (sy + radi g + 1))
              (zeros nch, f0) ltac:(lia) ltac:(lia)) as [it' [Hscan _]].
  - intros _. rewrite Heq. rewrite rerange_it_at.
    replace (sy + - radj g) with (sy - radj g) by lia. reflexivity.
  - unfold with_iterator in Hscan at 1. cbn [fst snd] in Hscan.
    rewrite Hscan. unfold with_iterator. cbn [obind].
    replace (sy + - radj g) with (sy - radj g) by lia.
    reflexivity.
Qed.

(** X4.  Where the two radii agree, the loops of the non-separable path
    never read an exhausted iterator and leave it exhausted: the
    assertions [OIIO_DASSERT(!srcpel.done())] and
    [OIIO_DASSERT(srcpel.done())] of the code hold. *)
Theorem general_taps_exhaust_iterator (src : @ImageBuf F) (nch : Z)
    (filter : Filter2D) (g : ResizeGeometry) (sx sy : Z) (fx fy : F)
    (Hr : 0 <= radi g) (Heq : radi g = radj g) :
  exists it' pel totalweight,
    general_taps src filter g fx fy
      (rerange (sx - radi g) (sx + radi g + 1)
               (sy - radi g) (sy + radi g + 1), zeros nch, f0)
    = Some (it', pel, totalweight) /\
    it_done it' = true.
Proof.
  unfold general_taps.
  destruct (@general_rows_scan src filter g sx sy fx fy Hr
              (Z.to_nat (2 * radj g + 1)) (- radj g)
              (rerange (sx - radi g) (sx + radi g + 1)
                       (sy - radi g) (sy + radi g + 1))
              (zeros nch, f0) ltac:(lia) ltac:(lia)) as [it' [Hscan Hdone]].
  - intros _. rewrite Heq. rewrite rerange_it_at.
    replace (sy + - radj g) with (sy - radj g) by lia. reflexivity.
  - unfold with_iterator in Hscan. cbn [fst snd] in Hscan.
    eexists it', _, _. split; [exact Hscan |].
    apply Hdone. lia.
Qed.

End GeneralPathScan.

(** A resize of [Data.rows4x4] to its own size with a disk of width 2:
    both radii are 1. *)
Lemma general_pixel_agrees_witness :
  exists g,
    resize_geometry Data.rows4x4 Data.rows4x4 Data.disk2 = Some g /\
    general_pixel Data.rows4x4 1 Data.disk2 g 1 1
    = general_pixel_spec Data.rows4x4 1 Data.disk2 g 1 1.
Proof.
  destruct (resize_geometry Data.rows4x4 Data.rows4x4 Data.disk2)
    as [g |] eqn:E.
  - exists g. split; [reflexivity |].
    vm_compute in E. injection E as <-.
    apply general_pixel_agrees; [cbn; lia | reflexivity].
  - vm_compute in E. discriminate E.
Defined.

Lemma general_taps_exhaust_iterator_witness :
  exists g it' pel totalweight,
    resize_geometry Data.rows4x4 Data.rows4x4 Data.disk2 = Some g /\
    general_taps Data.rows4x4 Data.disk2 g Data.zero Data.zero
      (rerange (1 - radi g) (1 + radi g + 1) (1 - radi g) (1 + radi g + 1),
       zeros 1, f0)
    = Some (it', pel, totalweight) /\
    it_done it' = true.
Proof.
  destruct (resize_geometry Data.rows4x4 Data.rows4x4 Data.disk2)
    as [g |] eqn:E.
  - assert (Hr : radi g = 1 /\ radj g = 1)
      by (vm_compute in E; injection E as <-; split; reflexivity).
    destruct (@general_taps_exhaust_iterator
                _ _ Data.rows4x4 1 Data.disk2 g 1 1 Data.zero Data.zero
                ltac:(lia) ltac:(lia)) as (it' & pel & tw & Hrun & Hdone).
    exists g, it', pel, tw. split; [reflexivity |].
    split; [exact Hrun | exact Hdone].
  - vm_compute in E. discriminate E.
Defined.

(** * Further properties of the kernels *)

(** ** filtered_sample: the size of the result and empty supports *)

Section SampleResult.

Context {F : Type} {ops : FloatOps F}.

Lemma raster_empty (xb xe yb ye : Z) :
  xe <= xb \/ ye <= yb -> raster xb xe yb ye = [].
Proof.
  intros [Hx | Hy]; unfold raster.
  - rewrite (zrange_empty (lo := xb)) by exact Hx. cbn [map].
    induction (zrange yb ye) as [| y ys IH]; [reflexivity | exact IH].
  - now rewrite (zrange_empty (lo := yb)) by exact Hy.
Qed.

Lemma raster_first (xb xe yb ye : Z) :
  xb < xe -> yb < ye ->
  exists rest, raster xb xe yb ye = (xb, yb) :: rest.
Proof.
  intros Hx Hy. unfold raster.
  rewrite (zrange_cons (lo := yb)) by exact Hy. cbn [flat_map].
  rewrite (zrange_cons (lo := xb)) by exact Hx. cbn [map app].
  eexists. reflexivity.
Qed.

Lemma length_weighted_sum (src : @ImageBuf F) (wrap : WrapMode)
    (s t ds_inv dt_inv : F) (filter : Filter2D) (pixels : list (Z * Z)) :
  List.length (fst (weighted_sum src wrap s t ds_inv dt_inv filter pixels))
  = Z.to_nat (nchannels (spec src)).
Proof.
  unfold weighted_sum.
  assert (Hgen : forall acc : list F * F,
             List.length
               (fst (fold_left (sample_step src wrap s t ds_inv dt_inv filter)
                               pixels acc))
             = List.length (fst acc)).
  { induction pixels as [| p ps IH]; intros acc; [reflexivity |].
    cbn [fold_left]. rewrite IH. unfold sample_step. cbn [fst].
    apply length_mapi_chan. }
  rewrite Hgen. cbn [fst]. apply length_zeros.
Qed.

Lemma length_normalized (acc : list F * F) :
  List.length (normalized acc) = List.length (fst acc).
Proof.
  unfold normalized. destruct (f0 <. snd acc); apply length_mapi_chan.
Qed.

(** [filtered_sample] writes [src.nchannels()] floats to [result]. *)
Lemma length_filtered_sample (src : @ImageBuf F) (s t dsdx dtdx dsdy dtdy : F)
    (filter : Filter2D) (wrap : WrapMode) (edgeclamp : bool) (res : list F) :
  filtered_sample src s t dsdx dtdx dsdy dtdy filter wrap edgeclamp = Some res ->
  List.length res = Z.to_nat (nchannels (spec src)).
Proof.
  unfold filtered_sample. intros H. apply obind_Some in H.
  destruct H as [it [_ H]]. injection H as <-.
  rewrite length_normalized. apply length_weighted_sum.
Qed.

Lemma map_const_repeat {A B} (c : B) (l : list A) :
  map (fun _ => c) l = repeat c (List.length l).
Proof. induction l as [| a l IH]; cbn; [reflexivity | now rewrite IH]. Qed.

Lemma zeros_repeat (nc : Z) : @zeros F _ nc = repeat f0 (Z.to_nat nc).
Proof.
  unfold zeros. rewrite map_const_repeat, length_zrange. do 2 f_equal. lia.
Qed.

Lemma mapi_chan_const (c : F) (a : list F) :
  mapi_chan (fun _ _ => c) a = repeat c (List.length a).
Proof.
  unfold mapi_chan. rewrite map_const_repeat, length_combine, length_zrange.
  f_equal. lia.
Qed.

Lemma mapi_chan_zeros (nc : Z) :
  mapi_chan (fun _ _ => @f0 F _) (zeros nc) = zeros nc.
Proof.
  rewrite mapi_chan_const, length_zeros. symmetry. apply zeros_repeat.
Qed.

(** X1.  With the edge-clamp flag set, a sample whose support lies wholly
    to one side of the data window of the source (its last column at or
    before the first column of the window, and so on) has an empty clamped
    support: no pixel is read and every channel of the result is 0,
    whatever the filter and the wrap mode. *)
Theorem filtered_sample_edgeclamp_outside
    (src : @ImageBuf F) (s t dsdx dtdx dsdy dtdy : F) (filter : Filter2D)
    (wrap : WrapMode) (sup : Support)
    (Hzero : (@f0 F _ <. f0) = false)
    (Hx : ib_xbegin src <= ib_xend src) (Hy : ib_ybegin src <= ib_yend src)
    (Hsup : sample_support s t (footprint dsdx dsdy) (footprint dtdx dtdy)
                           filter = Some sup)
    (Hout : smax sup <= ib_xbegin src \/ ib_xend src <= smin sup \/
            tmax sup <= ib_ybegin src \/ ib_yend src <= tmin sup) :
  support_pixels (clamp_support src sup) = [] /\
  filtered_sample src s t dsdx dtdx dsdy dtdy filter wrap true
  = Some (zeros (nchannels (spec src))).
Proof.
  assert (Hempty : support_pixels (clamp_support src sup) = []).
  { unfold support_pixels, clamp_support. cbn [smin smax tmin tmax].
    apply raster_empty.
    pose proof (clamp_between (smin sup) Hx).
    pose proof (clamp_between (smax sup) Hx).
    pose proof (clamp_between (tmin sup) Hy).
    pose proof (clamp_between (tmax sup) Hy).
    unfold clamp in * .
    destruct Hout as [Ho | [Ho | [Ho | Ho]]];
      repeat match goal with
             | |- context [?a <=? ?b] => destruct (a <=? b) eqn:?
             end; lia. }
  split; [exact Hempty |].
  unfold filtered_sample, sample_iterator. rewrite Hsup. cbn [obind fst snd].
  rewrite Hempty. unfold weighted_sum. cbn [fold_left].
  unfold normalized. cbn [fst snd]. rewrite Hzero.
  now rewrite mapi_chan_zeros.
Qed.

End SampleResult.

(** A sample of [Data.ones2x2] at (10, 10): its support [9,11) x [9,11)
    is clamped to nothing, and the result is 0 even under clamp wrap. *)
Lemma filtered_sample_edgeclamp_outside_witness :
  filtered_sample Data.ones2x2 (of_int 10) (of_int 10) Data.zero Data.zero
                  Data.zero Data.zero Data.box2 WrapClamp true
  = Some [Data.zero].
Proof.
  refine (proj2 (@filtered_sample_edgeclamp_outside
                   _ Binary32.ops Data.ones2x2 (of_int 10) (of_int 10)
                   Data.zero Data.zero Data.zero Data.zero Data.box2 WrapClamp
                   {| smin := 9; smax := 11; tmin := 9; tmax := 11 |}
                   eq_refl _ _ eq_refl _)).
  - vm_compute; discriminate.
  - vm_compute; discriminate.
  - right; left. vm_compute; discriminate.
Defined.

(** ** warp_: the room [pel] has *)

Section WarpBounds.

Context {F : Type} {ops : FloatOps F}.

Lemma length_store_result (pel res pel' : list F) :
  store_result pel res = Some pel' ->
  (List.length res <= List.length pel)%nat /\
  List.length pel' = List.length pel.
Proof.
  unfold store_result.
  destruct (List.length res <=? List.length pel)%nat eqn:E; [| discriminate].
  intros [= <-]. apply Nat.leb_le in E. split; [exact E |].
  rewrite length_app, length_skipn. lia.
Qed.

Lemma length_warp_sample (src : @ImageBuf F) (Minv : M33f)
    (filter : Filter2D) (wrap : WrapMode) (edgeclamp : bool) (x y : Z)
    (res : list F) :
  warp_sample src Minv filter wrap edgeclamp x y = Some res ->
  List.length res = Z.to_nat (nchannels (spec src)).
Proof. unfold warp_sample. apply length_filtered_sample. Qed.

(** X2.  [warp_] keeps the sample of a pixel in [pel], an array of
    [dst.nchannels()] floats, while [filtered_sample] writes
    [src.nchannels()] floats to it and the loop over the channels reads
    [pel[chbegin .. chend)].  So where [warp_] is defined on a ROI that
    holds a pixel, the source has no more channels than the destination
    and a non-empty channel range of the ROI lies within the channels of
    the destination. *)
Theorem warp_defined_within_pel
    (dst src : @ImageBuf F) (Minv : M33f) (filter : Filter2D) (wrap : WrapMode)
    (edgeclamp : bool) (roi : ROI) (r : bool * @ImageBuf F)
    (Hrun : warp_ dst src Minv filter wrap edgeclamp roi = Some r)
    (Hx : xbegin roi < xend roi) (Hy : ybegin roi < yend roi)
    (Hsrc : 0 <= nchannels (spec src)) (Hdst : 0 <= nchannels (spec dst)) :
  nchannels (spec src) <= nchannels (spec dst) /\
  (chbegin roi < chend roi ->
   0 <= chbegin roi /\ chend roi <= nchannels (spec dst)).
Proof.
  unfold warp_ in Hrun. apply obind_Some in Hrun.
  destruct Hrun as [st [Hloop _]].
  unfold roi_pixels in Hloop.
  destruct (raster_first Hx Hy) as [rest Hr]. rewrite Hr in Hloop.
  cbn [foldM] in Hloop. apply obind_Some in Hloop.
  destruct Hloop as [st1 [Hstep _]].
  unfold warp_step in Hstep. cbn [fst snd] in Hstep.
  apply obind_Some in Hstep. destruct Hstep as [res [Hres Hstep]].
  apply obind_Some in Hstep. destruct Hstep as [pel [Hpel Hstep]].
  apply obind_Some in Hstep. destruct Hstep as [d [Hw _]].
  unfold warp_sample in Hres. apply length_filtered_sample in Hres.
  apply length_store_result in Hpel. destruct Hpel as [Hle Hlen].
  rewrite length_zeros in Hle, Hlen. rewrite Hres in Hle.
  split; [lia |].
  intros Hch. apply write_channels_spec in Hw.
  destruct Hw as (_ & _ & _ & Hin).
  assert (H1 : In (chbegin roi) (zrange (chbegin roi) (chend roi)))
    by (apply in_zrange; lia).
  assert (H2 : In (chend roi - 1) (zrange (chbegin roi) (chend roi)))
    by (apply in_zrange; lia).
  apply Hin in H1. apply Hin in H2.
  apply chan_Some_range in H1. apply chan_Some_range in H2.
  rewrite Hlen in H1, H2. lia.
Qed.

End WarpBounds.

(** ** resize_: the pixels and channels it writes *)

Section ResizeFrame.

Context {F : Type} {ops : FloatOps F}.

Lemma foldM_invariant {A B} (P : A -> Prop) (f : A -> B -> option A) :
  (forall a b a', P a -> f a b = Some a' -> P a') ->
  forall (l : list B) (a a' : A), P a -> foldM f l a = Some a' -> P a'.
Proof.
  intros Hf. induction l as [| b l IH]; intros a a' Ha H; cbn [foldM] in H.
  - now injection H as <-.
  - apply obind_Some in H. destruct H as [a1 [H1 H]].
    eapply IH; [| exact H]. eapply Hf; eauto.
Qed.

Lemma length_tap_pixel (src : @ImageBuf F) (x y : Z) (w : F) (pel : list F) :
  List.length (tap_pixel src x y w pel) = List.length pel.
Proof. apply length_mapi_chan. Qed.

Lemma length_accumulate (src : @ImageBuf F) (it : ConstIterator) (w : F)
    (pel pel' : list F) :
  accumulate src it w pel = Some pel' -> List.length pel' = List.length pel.
Proof.
  unfold accumulate. destruct (it_valid it); [| discriminate].
  intros [= <-]. apply length_tap_pixel.
Qed.

(** [pel] keeps its [nchannels] floats through the loops over the taps. *)
Lemma length_separable_pixel (src : @ImageBuf F) (nch : Z) (g : ResizeGeometry)
    (yfiltval : list F) (twy : F) (xfiltval : list F) (sx sy : Z)
    (pel : list F) :
  separable_pixel src nch g yfiltval twy xfiltval sx sy = Some pel ->
  List.length pel = Z.to_nat nch.
Proof.
  unfold separable_pixel. intros H. apply obind_Some in H.
  destruct H as [pel0 [H0 H]]. injection H as <-.
  destruct (twy ==. f0); [apply length_zeros |].
  destruct (negb (total xfiltval ==. f0)).
  - destruct (separable_rows src yfiltval xfiltval
                (rerange (sx - radi g) (sx + radi g + 1)
                         (sy - radj g) (sy + radj g + 1), zeros nch))
      as [[it' pel1] |] eqn:E; [| discriminate].
    cbn [option_map snd] in H0. injection H0 as <-.
    unfold separable_rows in E.
    apply (foldM_invariant
             (fun st : ConstIterator * list F =>
                List.length (snd st) = Z.to_nat nch)) in E;
      [exact E | | apply length_zeros].
    intros st wy st' Hst Hrow. unfold separable_row in Hrow.
    destruct (wy ==. f0); [now injection Hrow as <- |].
    apply (foldM_invariant
             (fun st : ConstIterator * list F =>
                List.length (snd st) = Z.to_nat nch)) in Hrow;
      [exact Hrow | | exact Hst].
    intros st1 wx st2 Hst1 Htap. unfold separable_tap in Htap.
    apply obind_Some in Htap. destruct Htap as [p [Hp Htap]].
    injection Htap as <-. cbn [snd].
    destruct (negb (wy *. wx ==. f0)).
    + apply length_accumulate in Hp. congruence.
    + injection Hp as <-. exact Hst1.
  - injection H0 as <-. apply length_zeros.
Qed.

Lemma length_general_pixel (src : @ImageBuf F) (nch : Z) (filter : Filter2D)
    (g : ResizeGeometry) (x y : Z) (pel : list F) :
  general_pixel src nch filter g x y = Some pel ->
  List.length pel = Z.to_nat nch.
Proof.
  unfold general_pixel. intros H.
  apply obind_Some in H. destruct H as [[sy fy] [_ H]].
  apply obind_Some in H. destruct H as [[sx fx] [_ H]].
  apply obind_Some in H. destruct H as [[[it' pel1] tw] [Htaps H]].
  injection H as <-.
  destruct (tw ==. f0); [apply length_zeros |].
  rewrite length_mapi_chan.
  unfold general_taps in Htaps.
  apply (foldM_invariant
           (fun st : ConstIterator * list F * F =>
              List.length (snd (fst st)) = Z.to_nat nch)) in Htaps;
    [exact Htaps | | apply length_zeros].
  intros st j st' Hst Hrow.
  apply (foldM_invariant
           (fun st : ConstIterator * list F * F =>
              List.length (snd (fst st)) = Z.to_nat nch)) in Hrow;
    [exact Hrow | | exact Hst].
  intros [[it1 p1] tw1] i st2 Hst1 Htap. unfold general_tap in Htap.
  cbn [fst snd] in Hst1.
  destruct (negb (_ ==. f0)).
  - apply obind_Some in Htap. destruct Htap as [p [Hp Htap]].
    injection Htap as <-. cbn [fst snd].
    apply length_accumulate in Hp. congruence.
  - injection Htap as <-. exact Hst1.
Qed.

Lemma chan_None (a : list F) (c : Z) :
  chan a c = None <-> ~ 0 <= c < Z.of_nat (List.length a).
Proof.
  unfold chan. destruct (c <? 0) eqn:E.
  - split; [lia | reflexivity].
  - rewrite nth_error_None. lia.
Qed.

(** What [write_pixel] leaves of the pixel it writes. *)
Lemma write_pixel_channel (d : @ImageBuf F) (x y : Z) (pel : list F) (c : Z) :
  pixel (write_pixel d x y pel) x y c
  = match chan pel c with Some v => v | None => pixel d x y c end.
Proof.
  destruct (chan pel c) as [v |] eqn:E.
  - now apply write_pixel_spec.
  - apply chan_None in E. unfold write_pixel.
    assert (Hgen : forall (l : list (Z * F)) (d0 : @ImageBuf F),
               ~ In c (map fst l) ->
               pixel (fold_left (fun d cv => setchannel d x y (fst cv) (snd cv))
                                l d0) x y c
               = pixel d0 x y c).
    { induction l as [| cv l IH]; intros d0 Hn; [reflexivity |].
      cbn [fold_left]. rewrite IH by (intros Hc; apply Hn; now right).
      apply setchannel_other. intros (_ & _ & Hc). apply Hn. now left. }
    apply Hgen. intros Hin. apply in_map_iff in Hin.
    destruct Hin as [[c' v] [Hc Hin]]. cbn in Hc. subst c'.
    apply in_combine_l in Hin. apply in_zrange in Hin. lia.
Qed.

Lemma write_pixel_deep_samples (d : @ImageBuf F) (x y : Z) (pel : list F) :
  deep_samples (write_pixel d x y pel) = deep_samples d.
Proof.
  unfold write_pixel.
  generalize (combine (zrange 0 (Z.of_nat (List.length pel))) pel).
  intros l. revert d. induction l as [| cv l IH]; intros d; [reflexivity |].
  cbn [fold_left]. now rewrite IH.
Qed.

(** A loop that computes a pixel value and writes it, over distinct
    pixels. *)
Lemma write_loop_spec {A} (val : A -> option (list F)) (at_ : A -> Z * Z) :
  forall ps : list A,
    NoDup (map at_ ps) ->
    forall d d' : @ImageBuf F,
      foldM (fun dst p =>
               pel <- val p ;;
               Some (write_pixel dst (fst (at_ p)) (snd (at_ p)) pel))
            ps d = Some d' ->
      spec d' = spec d /\ deep_samples d' = deep_samples d /\
      (forall x y c, ~ In (x, y) (map at_ ps) ->
         pixel d' x y c = pixel d x y c) /\
      (forall p, In p ps ->
         exists pel,
           val p = Some pel /\
           forall c, pixel d' (fst (at_ p)) (snd (at_ p)) c
                     = match chan pel c with
                       | Some v => v
                       | None => pixel d (fst (at_ p)) (snd (at_ p)) c
                       end).
Proof.
  induction ps as [| p0 ps IH]; intros Hnd d d' H; cbn [foldM] in H.
  - injection H as <-. repeat split; intros; try reflexivity; contradiction.
  - cbn [map] in Hnd. inversion Hnd as [| ? ? Hnotin Hnd']; subst.
    apply obind_Some in H. destruct H as [d1 [Hstep H]].
    apply obind_Some in Hstep. destruct Hstep as [pel [Hpel Hstep]].
    injection Hstep as <-.
    destruct (write_pixel_spec d (fst (at_ p0)) (snd (at_ p0)) pel)
      as (Hs1 & Hframe1 & _).
    destruct (IH Hnd' _ _ H) as (Hs & Hd & Hframe & Hin).
    split; [congruence |]. split.
    { rewrite Hd. apply write_pixel_deep_samples. }
    split.
    + intros x y c Hne. rewrite Hframe by (intros Hp; apply Hne; now right).
      apply Hframe1. intros [-> ->]. apply Hne. left.
      now destruct (at_ p0).
    + intros p [<- | Hp].
      * exists pel. split; [exact Hpel |]. intros c.
        rewrite Hframe by (now destruct (at_ p0)).
        apply write_pixel_channel.
      * destruct (Hin p Hp) as [pel' [Hv Hc]]. exists pel'.
        split; [exact Hv |]. intros c. rewrite Hc.
        destruct (chan pel' c); [reflexivity |].
        apply Hframe1. intros [Hx Hy]. apply Hnotin.
        apply in_map_iff. exists p. split; [| exact Hp].
        destruct (at_ p), (at_ p0). cbn in * . congruence.
Qed.

Lemma foldM_ext {A B} (f f' : A -> B -> option A) :
  (forall a b, f a b = f' a b) ->
  forall (l : list B) (a : A), foldM f l a = foldM f' l a.
Proof.
  intros Hf. induction l as [| b l IH]; intros a; cbn [foldM];
    [reflexivity |].
  rewrite Hf. destruct (f' a b); cbn [obind]; [apply IH | reflexivity].
Qed.

Lemma NoDup_map_column (y : Z) {A} (l : list (Z * A)) :
  NoDup (map fst l) -> NoDup (map (fun xr => (fst xr, y)) l).
Proof.
  intros Hnd.
  replace (map (fun xr : Z * A => (fst xr, y)) l)
    with (map (fun x : Z => (x, y)) (map fst l))
    by (rewrite map_map; reflexivity).
  apply Injective_map_NoDup; [| exact Hnd].
  intros a b Hab. now injection Hab.
Qed.

(** The separable path, scanline by scanline: each pixel of the tile
    holds the value computed for it alone. *)
Lemma resize_separable_rows_frame (src : @ImageBuf F) (filter : Filter2D)
    (g : ResizeGeometry) (roi : ROI) (table : list (list F))
    (Htable : xfiltval_all g filter roi = Some table) :
  forall ys : list Z,
    NoDup ys ->
    forall d d' : @ImageBuf F,
      foldM (resize_separable_row src filter g roi table) ys d = Some d' ->
      spec d' = spec d /\ deep_samples d' = deep_samples d /\
      (forall x y c, ~ (In y ys /\ xbegin roi <= x < xend roi) ->
         pixel d' x y c = pixel d x y c) /\
      (forall x y, In y ys -> xbegin roi <= x < xend roi ->
         exists pel,
           ('(src_y, src_yf_frac) <- floorfrac (src_yf g y) ;;
            '(_, src_xf_frac) <- floorfrac (src_xf g x) ;;
            src_x <- ifloor (src_xf g x) ;;
            let yw := ytap_weights g filter src_yf_frac in
            separable_pixel src (nchannels (spec d)) g (normalize yw)
                            (total yw)
                            (normalize (xtap_weights g filter src_xf_frac))
                            src_x src_y) = Some pel /\
           forall c, pixel d' x y c
                     = match chan pel c with
                       | Some v => v
                       | None => pixel d x y c
                       end).
Proof.
  unfold xfiltval_all in Htable. apply mapM_combine in Htable.
  destruct Htable as [Hfst Hrows].
  induction ys as [| y0 ys IH]; intros Hnd d d' H; cbn [foldM] in H.
  - injection H as <-. repeat split; intros; try reflexivity; contradiction.
  - inversion Hnd as [| ? ? Hnotin Hnd']; subst.
    apply obind_Some in H. destruct H as [d1 [Hrow H]].
    unfold resize_separable_row in Hrow.
    apply obind_Some in Hrow. destruct Hrow as [[sy fy] [Hfy Hrow]].
    rewrite (foldM_ext _
               (fun dst xr =>
                  pel <- (src_x <- ifloor (src_xf g (fst xr)) ;;
                          separable_pixel src (nchannels (spec d)) g
                            (normalize (ytap_weights g filter fy))
                            (total (ytap_weights g filter fy))
                            (snd xr) src_x sy) ;;
                  Some (write_pixel dst (fst (fst xr, y0)) (snd (fst xr, y0))
                                    pel))) in Hrow
      by (intros a b; destruct (ifloor (src_xf g (fst b))); reflexivity).
    apply (write_loop_spec
             (fun xr : Z * list F =>
                src_x <- ifloor (src_xf g (fst xr)) ;;
                separable_pixel src (nchannels (spec d)) g
                  (normalize (ytap_weights g filter fy))
                  (total (ytap_weights g filter fy))
                  (snd xr) src_x sy)
             (fun xr : Z * list F => (fst xr, y0))) in Hrow;
      [| apply NoDup_map_column; rewrite Hfst; apply NoDup_zrange].
    destruct Hrow as (Hs1 & Hd1 & Hframe1 & Hin1).
    destruct (IH Hnd' _ _ H) as (Hs & Hd & Hframe & Hin).
    split; [congruence |]. split; [congruence |]. split.
    + intros x y c Hne.
      rewrite Hframe by (intros [Hy Hx]; apply Hne; cbn; auto).
      apply Hframe1. intros Hp. apply in_map_iff in Hp.
      destruct Hp as [[x' r] [Heq Hp]]. cbn in Heq. injection Heq as -> ->.
      apply Hne. split; [now left |].
      apply in_zrange. rewrite <- Hfst. apply in_map_iff.
      exists (x, r). auto.
    + intros x y [<- | Hy] Hx.
      * assert (Hxin : In x (map fst (combine (zrange (xbegin roi) (xend roi))
                                              table)))
          by (rewrite Hfst; now apply in_zrange).
        apply in_map_iff in Hxin. destruct Hxin as [[x' r] [Hx' Hxr]].
        cbn in Hx'. subst x'.
        pose proof (Hrows _ _ Hxr) as Hr. unfold xfiltval_row in Hr.
        apply obind_Some in Hr. destruct Hr as [[sx' fx] [Hfx Hr]].
        injection Hr as <-.
        destruct (Hin1 _ Hxr) as [pel [Hpel Hv]]. cbn [fst snd] in Hpel, Hv.
        exists pel. split.
        -- rewrite Hfy. cbn [obind]. rewrite Hfx. cbn [obind]. exact Hpel.
        -- intros c. rewrite Hframe by (intros [Hy _]; contradiction).
           apply Hv.
      * destruct (Hin x y Hy Hx) as [pel [Hpel Hv]].
        exists pel. rewrite <- Hs1. split; [exact Hpel |].
        intros c. rewrite Hv. destruct (chan pel c); [reflexivity |].
        apply Hframe1. intros Hp. apply in_map_iff in Hp.
        destruct Hp as [[x' r] [Heq _]]. cbn in Heq. injection Heq as _ ->.
        contradiction.
Qed.

(** The kernel [resize_]: what it writes and what it keeps. *)
Lemma resize_kernel_spec
    (dst src : @ImageBuf F) (filter : Filter2D) (roi : ROI) (ok : bool)
    (dst' : @ImageBuf F)
    (Hrun : resize_ dst src filter roi = Some (ok, dst')) :
  ok = true /\ spec dst' = spec dst /\ deep_samples dst' = deep_samples dst /\
  (forall x y c,
     ~ (xbegin roi <= x < xend roi /\ ybegin roi <= y < yend roi /\
        0 <= c < nchannels (spec dst)) ->
     pixel dst' x y c = pixel dst x y c) /\
  exists g,
    resize_geometry dst src filter = Some g /\
    forall x y,
      xbegin roi <= x < xend roi -> ybegin roi <= y < yend roi ->
      exists pel,
        resize_pixel dst src filter g x y = Some pel /\
        forall c, 0 <= c < nchannels (spec dst) ->
                  chan pel c = Some (pixel dst' x y c).
Proof.
  unfold resize_ in Hrun. apply obind_Some in Hrun.
  destruct Hrun as [g [Hg Hrun]].
  apply obind_Some in Hrun. destruct Hrun as [d [Hd Hrun]].
  injection Hrun as <- <-. split; [reflexivity |].
  assert (Hloop :
    spec d = spec dst /\ deep_samples d = deep_samples dst /\
    (forall x y c,
       ~ (xbegin roi <= x < xend roi /\ ybegin roi <= y < yend roi) ->
       pixel d x y c = pixel dst x y c) /\
    (forall x y,
       xbegin roi <= x < xend roi -> ybegin roi <= y < yend roi ->
       exists pel,
         resize_pixel dst src filter g x y = Some pel /\
         List.length pel = Z.to_nat (nchannels (spec dst)) /\
         forall c, pixel d x y c
                   = match chan pel c with
                     | Some v => v
                     | None => pixel dst x y c
                     end)).
  { unfold resize_pixel. destruct (separable filter).
    - unfold resize_separable in Hd. apply obind_Some in Hd.
      destruct Hd as [table [Htable Hrows]].
      eapply resize_separable_rows_frame in Hrows;
        [| exact Htable | apply NoDup_zrange].
      destruct Hrows as (Hs & Hds & Hframe & Hin).
      split; [exact Hs |]. split; [exact Hds |]. split.
      + intros x y c Hne. apply Hframe. intros [Hy Hx]. apply Hne.
        apply in_zrange in Hy. auto.
      + intros x y Hx Hy.
        destruct (Hin x y) as [pel [Hpel Hv]];
          [now apply in_zrange | exact Hx |].
        exists pel. split; [exact Hpel |]. split; [| exact Hv].
        apply obind_Some in Hpel. destruct Hpel as [[sy fy] [_ Hpel]].
        apply obind_Some in Hpel. destruct Hpel as [[sx' fx] [_ Hpel]].
        apply obind_Some in Hpel. destruct Hpel as [sx [_ Hpel]].
        now apply length_separable_pixel in Hpel.
    - unfold resize_general in Hd.
      apply (write_loop_spec
               (fun p : Z * Z =>
                  general_pixel src (nchannels (spec dst)) filter g
                                (fst p) (snd p))
               (fun p : Z * Z => p)) in Hd;
        [| rewrite map_id; apply NoDup_raster].
      destruct Hd as (Hs & Hds & Hframe & Hin).
      split; [exact Hs |]. split; [exact Hds |]. split.
      + intros x y c Hne. apply Hframe. rewrite map_id. intros Hp.
        apply in_raster in Hp. tauto.
      + intros x y Hx Hy.
        destruct (Hin (x, y)) as [pel [Hpel Hv]];
          [apply in_raster; auto |].
        cbn [fst snd] in Hpel, Hv.
        exists pel. split; [exact Hpel |]. split; [| exact Hv].
        now apply length_general_pixel in Hpel. }
  destruct Hloop as (Hs & Hds & Hframe & Hin).
  split; [exact Hs |]. split; [exact Hds |]. split.
  - intros x y c Hne.
    destruct (Z_le_dec (xbegin roi) x) as [Hx1 |];
      [| apply Hframe; lia].
    destruct (Z_lt_dec x (xend roi)) as [Hx2 |]; [| apply Hframe; lia].
    destruct (Z_le_dec (ybegin roi) y) as [Hy1 |]; [| apply Hframe; lia].
    destruct (Z_lt_dec y (yend roi)) as [Hy2 |]; [| apply Hframe; lia].
    destruct (Hin x y) as [pel [_ [Hlen Hv]]]; [lia | lia |].
    rewrite Hv.
    assert (Hc : chan pel c = None) by (apply chan_None; lia).
    now rewrite Hc.
  - exists g. split; [exact Hg |].
    intros x y Hx Hy. destruct (Hin x y Hx Hy) as [pel [Hpel [Hlen Hv]]].
    exists pel. split; [exact Hpel |].
    intros c Hc. rewrite Hv.
    destruct (chan pel c) as [v |] eqn:E; [reflexivity |].
    apply chan_None in E. lia.
Qed.

Variable create : string -> F -> F -> option (@Filter2D F).
Variable IBAprep : ROI -> @ImageBuf F -> @ImageBuf F -> option (ROI * @ImageBuf F).

(** X5.  [resize], once [IBAprep] has prepared a destination [dst0]
    that has no more channels than the source, and the ROI, runs
    [resize_] with the filter it was given or, without one, with a
    triangle filter of width [2 * max(1, wratio)] and height
    [2 * max(1, hratio)].  It then returns [true] and keeps the
    specification and the sample counts of [dst0].  For every pixel of
    the ROI it writes all channels [0 <= c < dst.nchannels()], whatever
    the channel range of the ROI, with the value computed for that pixel
    alone; every other pixel and channel keeps its value.  (The kernel
    reads [srcpel[c]] for every channel of the destination: the
    statement is for sources that have those channels.) *)
Theorem resize_writes_roi_pixels
    (dst src dst0 : @ImageBuf F) (filter : option Filter2D) (roi roi' : ROI)
    (ok : bool) (dst' : @ImageBuf F)
    (Hprep : IBAprep roi dst src = Some (roi', dst0))
    (Hch : nchannels (spec dst0) <= nchannels (spec src))
    (Hrun : resize create IBAprep dst src filter roi = Some (ok, dst')) :
  exists f g,
    match filter with
    | Some f0 => f = f0
    | None =>
        create "triangle" (f2 *. fmax f1 (resize_wratio dst0 src))
                          (f2 *. fmax f1 (resize_hratio dst0 src)) = Some f
    end /\
    resize_geometry dst0 src f = Some g /\
    ok = true /\ spec dst' = spec dst0 /\
    deep_samples dst' = deep_samples dst0 /\
    (forall x y c,
       ~ (xbegin roi' <= x < xend roi' /\ ybegin roi' <= y < yend roi' /\
          0 <= c < nchannels (spec dst0)) ->
       pixel dst' x y c = pixel dst0 x y c) /\
    (forall x y,
       xbegin roi' <= x < xend roi' -> ybegin roi' <= y < yend roi' ->
       exists pel,
         resize_pixel dst0 src f g x y = Some pel /\
         forall c, 0 <= c < nchannels (spec dst0) ->
                   chan pel c = Some (pixel dst' x y c)).
Proof.
  unfold resize in Hrun. rewrite Hprep in Hrun.
  apply obind_Some in Hrun. destruct Hrun as [f [Hf Hrun]].
  apply resize_kernel_spec in Hrun.
  destruct Hrun as (Hok & Hs & Hd & Hframe & g & Hg & Hin).
  exists f, g. split.
  { destruct filter as [f0 |]; [now injection Hf | exact Hf]. }
  auto 10.
Qed.

End ResizeFrame.

(** [resize] of [Data.rows4x4] into [Data.narrow2x4] with the disk
    filter, by the non-separable path: the pixel (5, 5), outside the
    2 x 4 tile, keeps its value. *)
Lemma resize_writes_roi_pixels_witness :
  exists ok dst',
    resize Data.create_box Data.prep_id Data.narrow2x4 Data.rows4x4
           (Some Data.disk2) (roi2d 0 2 0 4 1)
    = Some (ok, dst') /\
    ok = true /\ pixel dst' 5 5 0 = pixel Data.narrow2x4 5 5 0.
Proof.
  destruct (resize Data.create_box Data.prep_id Data.narrow2x4 Data.rows4x4
                   (Some Data.disk2) (roi2d 0 2 0 4 1))
    as [[ok dst'] |] eqn:E.
  - exists ok, dst'. split; [reflexivity |].
    destruct (@resize_writes_roi_pixels
                _ _ Data.create_box Data.prep_id
                Data.narrow2x4 Data.rows4x4 Data.narrow2x4
                (Some Data.disk2) (roi2d 0 2 0 4 1) (roi2d 0 2 0 4 1)
                ok dst' eq_refl ltac:(cbn; lia) E)
      as (f & g & _ & _ & Hok & _ & _ & Hframe & _).
    split; [exact Hok |]. apply Hframe. cbn. lia.
  - vm_compute in E. discriminate E.
Defined.

(** The run of [warp_] of the witness above: one channel on both sides. *)
Lemma warp_defined_within_pel_witness :
  exists r,
    warp_ Data.zeros2x2 Data.ones2x2 Data.singular_at_column0 Data.box2
          WrapBlack false (roi2d 0 2 0 2 1) = Some r /\
    nchannels (spec Data.ones2x2) <= nchannels (spec Data.zeros2x2) /\
    chend (roi2d 0 2 0 2 1) <= nchannels (spec Data.zeros2x2).
Proof.
  destruct (warp_ Data.zeros2x2 Data.ones2x2 Data.singular_at_column0
                  Data.box2 WrapBlack false (roi2d 0 2 0 2 1))
    as [r |] eqn:E.
  - exists r. split; [reflexivity |].
    destruct (@warp_defined_within_pel _ _ _ _ _ _ _ _ _ _ E
                ltac:(cbn; lia) ltac:(cbn; lia) ltac:(cbn; lia)
                ltac:(cbn; lia)) as [Hsrc Hch].
    split; [exact Hsrc |]. apply Hch. cbn. lia.
  - vm_compute in E. discriminate E.
Defined.

(** ** The entry points that take a filter name *)

Section NamedFilters.

Context {F : Type} {ops : FloatOps F}.

Variable registry : list (@FilterDesc F).
Variable create : string -> F -> F -> option (@Filter2D F).
Variable IBAprep : ROI -> @ImageBuf F -> @ImageBuf F -> option (ROI * @ImageBuf F).
Variable inverse : @M33f F -> @M33f F.
Variable M33f_translate : @M33f F -> @V2f F -> @M33f F.
Variable M33f_rotate : @M33f F -> F -> @M33f F.
Variable M33f_mul : @M33f F -> @M33f F -> @M33f F.
Variable ImageBuf_reset : ImageSpec -> @ImageBuf F.
Variable ImageBuf_copy : @ImageBuf F -> @ImageBuf F -> bool * @ImageBuf F.

Lemma find_name_None (name : string) :
  (forall fd, In fd registry -> fd_name fd <> name) ->
  find (fun fd => String.eqb (fd_name fd) name) registry = None.
Proof.
  intros Hno.
  destruct (find (fun fd => String.eqb (fd_name fd) name) registry)
    as [fd |] eqn:E; [| reflexivity].
  apply find_some in E. destruct E as [Hin Heq].
  apply String.eqb_eq in Heq. now apply Hno in Hin.
Qed.

(** X6.  An entry point that is given a filter name the catalog does not
    hold returns [false] and reports that name on the destination: [warp]
    and [rotate] (for which an empty name stands for "lanczos3") before
    anything else is done, so that the destination is the one passed in;
    [resize] and [fit] (for which an empty name stands for
    "blackman-harris" or "lanczos3") once [IBAprep] has accepted the
    destination.  No pixel is computed. *)
Theorem unknown_filter_name_is_reported
    (dst src : @ImageBuf F) (M : M33f) (angle : F) (filtername : string)
    (filterwidth : F) (recompute_roi : bool) (wrap : WrapMode)
    (fillmode : string) (exact : bool) (roi : ROI) :
  ((forall fd, In fd registry ->
               fd_name fd <> warp_filter_name filtername) ->
   warp_named registry create IBAprep inverse dst src M filtername
              filterwidth recompute_roi wrap roi
   = (Some (false, dst), Some (UnknownFilter (warp_filter_name filtername))) /\
   rotate_named registry create IBAprep inverse M33f_translate M33f_rotate
                M33f_mul dst src angle filtername filterwidth recompute_roi roi
   = (Some (false, dst), Some (UnknownFilter (warp_filter_name filtername)))) /\
  (forall roi' dst0,
     IBAprep roi dst src = Some (roi', dst0) ->
     let name := resize_filter_name filtername (resize_wratio dst0 src)
                                    (resize_hratio dst0 src) in
     (forall fd, In fd registry -> fd_name fd <> name) ->
     resize_named registry create IBAprep dst src filtername filterwidth roi
     = (Some (false, dst0), Some (UnknownFilter name)) /\
     fit_named registry create IBAprep inverse ImageBuf_reset ImageBuf_copy
               dst src filtername filterwidth fillmode exact roi
     = (Some (false, dst0), Some (UnknownFilter name))).
Proof.
  split.
  - intros Hno.
    assert (Hw : warp_filter registry create filtername filterwidth = None).
    { unfold warp_filter. now rewrite find_name_None. }
    unfold rotate_named, rotate_about_named, warp_named. rewrite Hw.
    split; reflexivity.
  - intros roi' dst0 Hprep name Hno.
    assert (Hg : get_resize_filter registry create filtername filterwidth
                   (resize_wratio dst0 src) (resize_hratio dst0 src)
                 = (None, Some (UnknownFilter name))).
    { unfold get_resize_filter. fold name. now rewrite find_name_None. }
    unfold resize_named, fit_named. rewrite Hprep, Hg. split; reflexivity.
Qed.

End NamedFilters.

(** With the catalog of [Data], the name "sinc" is unknown: [warp] and
    [resize] return [false] and report it. *)
Lemma unknown_filter_name_is_reported_witness :
  warp_named Data.catalog Data.create_box Data.prep_id (fun M => M)
             Data.zeros2x2 Data.ones2x2 Data.shift_10_20 "sinc" Data.zero
             false WrapBlack (roi2d 0 2 0 2 1)
  = (Some (false, Data.zeros2x2), Some (UnknownFilter "sinc")) /\
  resize_named Data.catalog Data.create_box Data.prep_id
               Data.zeros2x2 Data.ones2x2 "sinc" Data.zero (roi2d 0 2 0 2 1)
  = (Some (false, Data.zeros2x2), Some (UnknownFilter "sinc")).
Proof.
  assert (Hno : forall fd, In fd Data.catalog -> fd_name fd <> "sinc"%string).
  { intros fd [<- | [<- | [<- | [<- | []]]]]; discriminate. }
  destruct (unknown_filter_name_is_reported
              Data.catalog Data.create_box Data.prep_id (fun M => M)
              (fun M _ => M) (fun M _ => M) (fun M _ => M)
              (fun s => Data.zeros2x2) (fun d s => (true, s))
              Data.zeros2x2 Data.ones2x2 Data.shift_10_20 Data.zero
              "sinc" Data.zero false WrapBlack "letterbox" false
              (roi2d 0 2 0 2 1)) as [Hw Hr].
  split.
  - exact (proj1 (Hw Hno)).
  - exact (proj1 (Hr _ _ eq_refl Hno)).
Defined.

(** ** fit *)

Section FitModes.

Context {F : Type} {ops : FloatOps F}.

Variable create : string -> F -> F -> option (@Filter2D F).
Variable IBAprep : ROI -> @ImageBuf F -> @ImageBuf F -> option (ROI * @ImageBuf F).
Variable inverse : @M33f F -> @M33f F.
Variable ImageBuf_reset : ImageSpec -> @ImageBuf F.
Variable ImageBuf_copy : @ImageBuf F -> @ImageBuf F -> bool * @ImageBuf F.

Lemma fit_fillmode_unknown (fillmode : string) (newaspect oldaspect : F) :
  fillmode <> "height"%string -> fillmode <> "width"%string ->
  fit_fillmode fillmode newaspect oldaspect
  = if fgeb newaspect oldaspect then "height"%string else "width"%string.
Proof.
  intros Hh Hw. unfold fit_fillmode.
  apply String.eqb_neq in Hh. apply String.eqb_neq in Hw.
  rewrite Hh, Hw. reflexivity.
Qed.

Lemma fit_fillmode_letterbox (newaspect oldaspect : F) :
  fit_fillmode "letterbox" newaspect oldaspect
  = if fgeb newaspect oldaspect then "height"%string else "width"%string.
Proof. apply fit_fillmode_unknown; discriminate. Qed.

(** X7.  [fit] knows the fill modes "height" and "width"; any other
    string, "letterbox" among them, fills to the height where the aspect
    ratio of the ROI is at least that of the full window of the source,
    and to the width otherwise.  So [fit] with an unknown fill mode is
    [fit] with "letterbox". *)
Theorem fit_unknown_mode_is_letterbox
    (dst src : @ImageBuf F) (filter : option Filter2D) (fillmode : string)
    (exact : bool) (roi : ROI)
    (Hh : fillmode <> "height"%string) (Hw : fillmode <> "width"%string) :
  (forall srcspec r,
     let oldaspect :=
       of_int (full_width srcspec) /. of_int (full_height srcspec) in
     let newaspect := of_int (roi_width r) /. of_int (roi_height r) in
     fit_geometry srcspec r fillmode
     = fit_geometry srcspec r
         (if fgeb newaspect oldaspect then "height" else "width")) /\
  fit create IBAprep inverse ImageBuf_reset ImageBuf_copy
      dst src filter fillmode exact roi
  = fit create IBAprep inverse ImageBuf_reset ImageBuf_copy
        dst src filter "letterbox" exact roi.
Proof.
  assert (Hgeo : forall srcspec r,
             fit_geometry srcspec r fillmode
             = fit_geometry srcspec r "letterbox").
  { intros srcspec r. unfold fit_geometry.
    now rewrite fit_fillmode_unknown, fit_fillmode_letterbox. }
  split.
  - intros srcspec r oldaspect newaspect. unfold fit_geometry.
    fold oldaspect newaspect. rewrite fit_fillmode_unknown by assumption.
    destruct (fgeb newaspect oldaspect); reflexivity.
  - unfold fit. destruct (IBAprep roi dst src) as [[roi' dst0] |];
      [| reflexivity].
    now rewrite Hgeo.
Qed.

(** X8.  The full pixel fit ([exact] false), whether it resizes or
    copies and whether that succeeds or not, leaves a destination whose
    full window is the x and y ranges of the ROI [IBAprep] returned, and
    whose data window starts at [(xoffset, yoffset)], the offsets that
    centre the resized image in a window at the origin.  One of the two
    offsets is 0, on the axis the resized image fills. *)
Theorem fit_pixel_window
    (dst src : @ImageBuf F) (filter : option Filter2D) (fillmode : string)
    (roi roi' : ROI) (dst0 dst' : @ImageBuf F) (ok : bool)
    (Hprep : IBAprep roi dst src = Some (roi', dst0))
    (Hrun : fit create IBAprep inverse ImageBuf_reset ImageBuf_copy
                dst src filter fillmode false roi = Some (ok, dst')) :
  exists g,
    fit_geometry (spec src) roi' fillmode = Some g /\
    full_x (spec dst') = xbegin roi' /\
    full_y (spec dst') = ybegin roi' /\
    full_width (spec dst') = xend roi' - xbegin roi' /\
    full_height (spec dst') = yend roi' - ybegin roi' /\
    img_x (spec dst') = xoffset g /\
    img_y (spec dst') = yoffset g /\
    ((resize_full_height g = yend roi' - ybegin roi' /\ yoffset g = 0 /\
      xoffset g = Z.quot (xend roi' - xbegin roi' - resize_full_width g) 2)
     \/
     (resize_full_width g = xend roi' - xbegin roi' /\ xoffset g = 0 /\
      yoffset g = Z.quot (yend roi' - ybegin roi' - resize_full_height g) 2)).
Proof.
  unfold fit in Hrun. rewrite Hprep in Hrun.
  apply obind_Some in Hrun. destruct Hrun as [g [Hg Hrun]].
  cbn [negb] in Hrun.
  apply obind_Some in Hrun. destruct Hrun as [r [_ Hrun]].
  injection Hrun as _ <-.
  exists g. split; [exact Hg |].
  cbn [spec with_spec fit_window full_x full_y full_width full_height
       img_x img_y].
  unfold roi_width, roi_height.
  repeat (split; [reflexivity |]).
  unfold fit_geometry in Hg.
  destruct (String.eqb (fit_fillmode fillmode _ _) "height").
  - apply obind_Some in Hg. destruct Hg as [w [_ Hg]]. injection Hg as <-.
    left. cbn. unfold roi_width, roi_height. auto.
  - destruct (String.eqb (fit_fillmode fillmode _ _) "width").
    + apply obind_Some in Hg. destruct Hg as [h [_ Hg]]. injection Hg as <-.
      right. cbn. unfold roi_width, roi_height. auto.
    + injection Hg as <-. left. cbn. unfold roi_width, roi_height.
      repeat split. now rewrite Z.sub_diag.
Qed.

End FitModes.

(** A fit of [Data.rows4x4] into the 2 x 4 window of [Data.narrow2x4]:
    the resized image is 2 x 2, one row below the top of the window. *)
Lemma fit_unknown_mode_is_letterbox_witness :
  fit Data.create_box Data.prep_id (fun M => M) Samples.reset Samples.copy
      Data.narrow2x4 Data.rows4x4 (Some Data.box2) "stretch" false
      (roi2d 0 2 0 4 1)
  = fit Data.create_box Data.prep_id (fun M => M) Samples.reset Samples.copy
        Data.narrow2x4 Data.rows4x4 (Some Data.box2) "letterbox" false
        (roi2d 0 2 0 4 1).
Proof.
  exact (proj2 (@fit_unknown_mode_is_letterbox
                  _ _ Data.create_box Data.prep_id (fun M => M)
                  Samples.reset Samples.copy
                  Data.narrow2x4 Data.rows4x4 (Some Data.box2) "stretch"
                  false (roi2d 0 2 0 4 1)
                  ltac:(discriminate) ltac:(discriminate))).
Defined.

Lemma fit_pixel_window_witness :
  exists ok dst',
    fit Data.create_box Data.prep_id (fun M => M) Samples.reset Samples.copy
        Data.narrow2x4 Data.rows4x4 (Some Data.box2) "letterbox" false
        (roi2d 0 2 0 4 1)
    = Some (ok, dst') /\
    full_width (spec dst') = 2 /\ full_height (spec dst') = 4 /\
    img_x (spec dst') = 0 /\ img_y (spec dst') = 1.
Proof.
  destruct (fit Data.create_box Data.prep_id (fun M => M) Samples.reset
                Samples.copy Data.narrow2x4 Data.rows4x4 (Some Data.box2)
                "letterbox" false (roi2d 0 2 0 4 1))
    as [[ok dst'] |] eqn:E.
  - exists ok, dst'. split; [reflexivity |].
    destruct (@fit_pixel_window
                _ _ Data.create_box Data.prep_id (fun M => M)
                Samples.reset Samples.copy
                Data.narrow2x4 Data.rows4x4 (Some Data.box2) "letterbox"
                (roi2d 0 2 0 4 1) (roi2d 0 2 0 4 1) Data.narrow2x4 dst' ok
                eq_refl E)
      as (g & Hg & _ & _ & Hfw & Hfh & Hx & Hy & _).
    vm_compute in Hg. injection Hg as <-.
    repeat split; assumption.
  - vm_compute in E. discriminate E.
Defined.

(** ** resample_: the copy of a flat image *)

Section ResampleKernelWrites.

Context {F : Type} {ops : FloatOps F}.

Variable interppixel : @ImageBuf F -> F -> F -> WrapMode -> list F.
Variable copy_deep_values :
  @ImageBuf F -> Z -> Z -> @ImageBuf F -> Z -> Z -> Z -> @ImageBuf F.

Lemma chan_source_pixel (src : @ImageBuf F) (sx sy c : Z) (v : F) :
  chan (source_pixel src sx sy) c = Some v ->
  0 <= c < nchannels (spec src) /\ v = getchannel src WrapDefault sx sy c.
Proof.
  intros H. pose proof (chan_Some_range _ _ H) as Hc.
  unfold source_pixel in Hc. rewrite length_map, length_zrange in Hc.
  split; [lia |].
  unfold chan, source_pixel in H. destruct (c <? 0) eqn:E; [lia |].
  rewrite nth_error_map in H.
  destruct (nth_error (zrange 0 (nchannels (spec src))) (Z.to_nat c))
    as [c' |] eqn:En; [| discriminate].
  cbn [option_map] in H. injection H as <-.
  unfold zrange in En. rewrite nth_error_map in En.
  destruct (nth_error (seq 0 (Z.to_nat (nchannels (spec src) - 0)))
                      (Z.to_nat c)) as [k |] eqn:Ek; [| discriminate].
  cbn [option_map] in En. injection En as <-.
  apply nth_error_nth with (d := 0%nat) in Ek.
  rewrite seq_nth in Ek by lia.
  do 2 f_equal. lia.
Qed.

Lemma resample_columns_spec (dst0 src : @ImageBuf F) (interpolate : bool)
    (roi : ROI) (y src_y : Z) (Hflat : deep (spec src) = false) :
  forall xs : list Z,
    NoDup xs ->
    forall d d' : @ImageBuf F,
      foldM (resample_column interppixel copy_deep_values dst0 src interpolate
                             roi y (resample_yf dst0 src y) src_y) xs d
      = Some d' ->
      spec d' = spec d /\ deep_samples d' = deep_samples d /\
      (forall x' y' c',
         ~ (y' = y /\ In x' xs /\ chbegin roi <= c' < chend roi) ->
         pixel d' x' y' c' = pixel d x' y' c') /\
      (forall x c, In x xs -> chbegin roi <= c < chend roi ->
         exists src_x,
           ifloor (resample_xf dst0 src x) = Some src_x /\
           chan (resampled_pixel interppixel dst0 src interpolate x y src_x src_y) c
           = Some (pixel d' x y c)).
Proof.
  induction xs as [| x0 xs IH]; intros Hnd d d' H; cbn [foldM] in H.
  - injection H as <-. repeat split; intros; try reflexivity; contradiction.
  - inversion Hnd as [| ? ? Hnotin Hnd']; subst.
    apply obind_Some in H. destruct H as [d1 [Hstep H]].
    unfold resample_column in Hstep.
    apply obind_Some in Hstep. destruct Hstep as [sx [Hsx Hstep]].
    rewrite Hflat in Hstep.
    assert (Hw : write_channels d x0 y
                   (resampled_pixel interppixel dst0 src interpolate x0 y sx src_y)
                   (zrange (chbegin roi) (chend roi)) = Some d1)
      by (unfold resampled_pixel; destruct interpolate; exact Hstep).
    clear Hstep. apply write_channels_spec in Hw.
    destruct Hw as (Hs1 & Hd1 & Hframe1 & Hin1).
    destruct (IH Hnd' _ _ H) as (Hs & Hd & Hframe & Hin).
    split; [congruence |]. split; [congruence |]. split.
    + intros x' y' c' Hne.
      rewrite Hframe by (intros (Hy & Hx & Hc); apply Hne; cbn; auto).
      apply Hframe1. intros (-> & -> & Hc). apply in_zrange in Hc.
      apply Hne. cbn. auto.
    + intros x c [<- | Hx] Hc.
      * exists sx. split; [exact Hsx |].
        rewrite Hframe by (intros (_ & Hx & _); contradiction).
        apply Hin1. now apply in_zrange.
      * now apply Hin.
Qed.

Lemma resample_rows_spec (dst0 src : @ImageBuf F) (interpolate : bool)
    (roi : ROI) (Hflat : deep (spec src) = false) :
  forall ys : list Z,
    NoDup ys ->
    forall d d' : @ImageBuf F,
      foldM (resample_row interppixel copy_deep_values dst0 src interpolate
                          roi) ys d = Some d' ->
      spec d' = spec d /\ deep_samples d' = deep_samples d /\
      (forall x y c,
         ~ (In y ys /\ xbegin roi <= x < xend roi /\
            chbegin roi <= c < chend roi) ->
         pixel d' x y c = pixel d x y c) /\
      (forall x y c, In y ys -> xbegin roi <= x < xend roi ->
         chbegin roi <= c < chend roi ->
         exists src_x src_y,
           ifloor (resample_xf dst0 src x) = Some src_x /\
           ifloor (resample_yf dst0 src y) = Some src_y /\
           chan (resampled_pixel interppixel dst0 src interpolate x y src_x src_y) c
           = Some (pixel d' x y c)).
Proof.
  induction ys as [| y0 ys IH]; intros Hnd d d' H; cbn [foldM] in H.
  - injection H as <-. repeat split; intros; try reflexivity; contradiction.
  - inversion Hnd as [| ? ? Hnotin Hnd']; subst.
    apply obind_Some in H. destruct H as [d1 [Hrow H]].
    unfold resample_row in Hrow.
    apply obind_Some in Hrow. destruct Hrow as [sy [Hsy Hrow]].
    apply resample_columns_spec in Hrow;
      [| exact Hflat | apply NoDup_zrange].
    destruct Hrow as (Hs1 & Hd1 & Hframe1 & Hin1).
    destruct (IH Hnd' _ _ H) as (Hs & Hd & Hframe & Hin).
    split; [congruence |]. split; [congruence |]. split.
    + intros x y c Hne.
      rewrite Hframe by (intros (Hy & Hx & Hc); apply Hne; cbn; auto).
      apply Hframe1. intros (-> & Hx & Hc). apply in_zrange in Hx.
      apply Hne. cbn. auto.
    + intros x y c [<- | Hy] Hx Hc.
      * destruct (Hin1 x c) as [sx [Hsx Hv]];
          [now apply in_zrange | exact Hc |].
        exists sx, sy. split; [exact Hsx |]. split; [exact Hsy |].
        rewrite Hframe by (intros (Hy & _ & _); contradiction).
        exact Hv.
      * now apply Hin.
Qed.

Variable IBAprep : ROI -> @ImageBuf F -> @ImageBuf F -> option (ROI * @ImageBuf F).

(** X9.  [resample] of a source that is not deep into a destination that
    [IBAprep] leaves not deep touches no sample count, returns [true]
    and assigns, for each pixel [(x, y)] of the prepared ROI, the
    channels [chbegin <= c < chend]: from the pixel [interppixel]
    computes at [(src_xf, src_yf)] under clamp wrap, or, without
    interpolation, from the source pixel
    [(src_x, src_y)] = [(floor(src_xf), floor(src_yf))], which is black
    outside the data window of the source.  Every other pixel and
    channel and the specification of the prepared destination are
    kept. *)
Theorem resample_flat_writes_roi_channels
    (dst src dst0 : @ImageBuf F) (interpolate : bool) (roi roi' : ROI)
    (ok : bool) (dst' : @ImageBuf F)
    (Hprep : IBAprep roi dst src = Some (roi', dst0))
    (Hflat : deep (spec src) = false) (Hflat0 : deep (spec dst0) = false)
    (Hrun : resample IBAprep (resample_ interppixel copy_deep_values)
                     dst src interpolate roi = Some (ok, dst')) :
  ok = true /\ spec dst' = spec dst0 /\
  deep_samples dst' = deep_samples dst0 /\
  (forall x y c,
     ~ (xbegin roi' <= x < xend roi' /\ ybegin roi' <= y < yend roi' /\
        chbegin roi' <= c < chend roi') ->
     pixel dst' x y c = pixel dst0 x y c) /\
  (forall x y c,
     xbegin roi' <= x < xend roi' -> ybegin roi' <= y < yend roi' ->
     chbegin roi' <= c < chend roi' ->
     exists src_x src_y,
       ifloor (resample_xf dst0 src x) = Some src_x /\
       ifloor (resample_yf dst0 src y) = Some src_y /\
       (interpolate = true ->
        chan (interppixel src (resample_xf dst0 src x)
                          (resample_yf dst0 src y) WrapClamp) c
        = Some (pixel dst' x y c)) /\
       (interpolate = false ->
        0 <= c < nchannels (spec src) /\
        pixel dst' x y c = getchannel src WrapDefault src_x src_y c)).
Proof.
  unfold resample, resample_prepare in Hrun.
  rewrite Hprep, Hflat0 in Hrun. cbn [obind] in Hrun.
  unfold resample_ in Hrun.
  destruct (Bool.eqb (deep (spec src)) (deep (spec dst0))); [| discriminate].
  apply obind_Some in Hrun. destruct Hrun as [d [Hloop Hrun]].
  injection Hrun as <- <-. split; [reflexivity |].
  apply resample_rows_spec in Hloop; [| exact Hflat | apply NoDup_zrange].
  destruct Hloop as (Hs & Hd & Hframe & Hin).
  split; [exact Hs |]. split; [exact Hd |]. split.
  - intros x y c Hne. apply Hframe. intros (Hy & Hx & Hc).
    apply in_zrange in Hy. apply Hne. auto.
  - intros x y c Hx Hy Hc.
    destruct (Hin x y c) as (sx & sy & Hsx & Hsy & Hv);
      [now apply in_zrange | exact Hx | exact Hc |].
    exists sx, sy. split; [exact Hsx |]. split; [exact Hsy |].
    unfold resampled_pixel in Hv. split.
    + intros ->. exact Hv.
    + intros ->. apply chan_source_pixel in Hv. destruct Hv as [Hcs ->].
      auto.
Qed.

End ResampleKernelWrites.

(** A resample of [Data.rows4x4] into [Data.narrow2x4]: the pixel (5, 5),
    outside the ROI, keeps its value. *)
Lemma resample_flat_writes_roi_channels_witness :
  exists ok dst',
    resample Data.prep_id
             (resample_ Samples.interp_black Samples.keep_deep)
             Data.narrow2x4 Data.rows4x4 false (roi2d 0 2 0 4 1)
    = Some (ok, dst') /\
    ok = true /\ pixel dst' 5 5 0 = pixel Data.narrow2x4 5 5 0.
Proof.
  destruct (resample Data.prep_id
                     (resample_ Samples.interp_black Samples.keep_deep)
                     Data.narrow2x4 Data.rows4x4 false (roi2d 0 2 0 4 1))
    as [[ok dst'] |] eqn:E.
  - exists ok, dst'. split; [reflexivity |].
    destruct (@resample_flat_writes_roi_channels
                _ _ Samples.interp_black Samples.keep_deep Data.prep_id
                Data.narrow2x4 Data.rows4x4 Data.narrow2x4 false
                (roi2d 0 2 0 4 1) (roi2d 0 2 0 4 1) ok dst'
                eq_refl eq_refl eq_refl E)
      as (Hok & _ & _ & Hframe & _).
    split; [exact Hok |]. apply Hframe. cbn. lia.
  - vm_compute in E. discriminate E.
Defined.

(** ** filtered_sample in binary32: samples off the image *)

Section SampleOffImage.

Lemma list_eq_chan {F : Type} (a b : list F) :
  (forall c, chan a c = chan b c) -> a = b.
Proof.
  intros H. apply nth_error_ext. intros n.
  specialize (H (Z.of_nat n)). unfold chan in H.
  destruct (Z.of_nat n <? 0)%Z eqn:E; [apply Z.ltb_lt in E; lia |].
  now rewrite Nat2Z.id in H.
Qed.

Lemma mapi_chan_fixes_zeros {F : Type} {ops : FloatOps F}
    (f : Z -> F -> F) (nc : Z) :
  (forall c, f c f0 = f0) -> mapi_chan f (zeros nc) = zeros nc.
Proof.
  intros Hf. apply list_eq_chan. intros c. rewrite chan_mapi_chan.
  destruct (chan (zeros nc) c) as [v |] eqn:Ec; [| reflexivity].
  pose proof (chan_Some_range _ _ Ec) as Hc. rewrite length_zeros in Hc.
  rewrite chan_zeros in Ec by lia. injection Ec as <-.
  cbn [option_map]. now rewrite Hf.
Qed.

(** [0 + w * 0] is [+0] for a finite [w] of either sign, and [0 / t] is
    [+0] for [t > 0], finite or not. *)
Lemma binary32_sum_keeps_zero (w : Data.float) :
  Binary32.is_finite w = true -> (@f0 Data.float _ +. w *. f0) = f0.
Proof.
  destruct w as [s | s | | s m e]; try discriminate; intros _;
    destruct s; vm_compute; reflexivity.
Qed.

Lemma binary32_zero_quotient (t : Data.float) :
  (@f0 Data.float _ <. t) = true -> (@f0 Data.float _ /. t) = f0.
Proof.
  destruct t as [s | s | | s m e]; intros H;
    try (vm_compute in H; discriminate H);
    destruct s; vm_compute in H;
    try discriminate H; vm_compute; reflexivity.
Qed.

Lemma weighted_fold_off_image (src : @ImageBuf Data.float) (wrap : WrapMode)
    (s t ds_inv dt_inv : Data.float) (filter : Filter2D) (nc : Z) :
  wrap = WrapBlack \/ wrap = WrapDefault ->
  forall pixels : list (Z * Z),
    (forall x y, In (x, y) pixels ->
       exists_pixel src x y = false /\
       Binary32.is_finite
         (filter_eval filter (ds_inv *. (of_int x +. fhalf -. s))
                             (dt_inv *. (of_int y +. fhalf -. t))) = true) ->
    forall total_w : Data.float,
      fst (fold_left (sample_step src wrap s t ds_inv dt_inv filter) pixels
                     (zeros nc, total_w))
      = zeros nc.
Proof.
  intros Hwrap.
  induction pixels as [| [px py] ps IH]; intros Hout total_w;
    [reflexivity |].
  cbn [fold_left]. unfold sample_step at 2. cbn [fst snd].
  destruct (Hout px py (or_introl eq_refl)) as [Hoff Hfin].
  rewrite mapi_chan_fixes_zeros.
  - apply IH. intros x y Hp. apply Hout. now right.
  - intros c.
    assert (Hblack : getchannel src wrap px py c = f0).
    { unfold getchannel, do_wrap. rewrite Hoff.
      destruct Hwrap as [-> | ->]; reflexivity. }
    rewrite Hblack. apply binary32_sum_keeps_zero, Hfin.
Qed.

(** X13.  In binary32, under black wrap, a sample whose support holds no
    pixel of the data window of the source and on which the weights of
    the filter are finite (not NaN, not an infinity) is black: every
    channel of the result is [+0], whatever the values of the weights
    and whether their sum is positive, overflows or not. *)
Theorem sample_off_image_is_black
    (src : @ImageBuf Data.float) (s t dsdx dtdx dsdy dtdy : Data.float)
    (filter : Filter2D) (wrap : WrapMode) (sup : Support)
    (Hwrap : wrap = WrapBlack \/ wrap = WrapDefault)
    (Hsup : sample_support s t (footprint dsdx dsdy) (footprint dtdx dtdy)
                           filter = Some sup)
    (Hout : forall x y, In (x, y) (support_pixels sup) ->
                        exists_pixel src x y = false)
    (Hfin : forall x y, In (x, y) (support_pixels sup) ->
              Binary32.is_finite
                (filter_eval filter
                   (f1 /. footprint dsdx dsdy *. (of_int x +. fhalf -. s))
                   (f1 /. footprint dtdx dtdy *. (of_int y +. fhalf -. t)))
              = true) :
  filtered_sample src s t dsdx dtdx dsdy dtdy filter wrap false
  = Some (zeros (nchannels (spec src))).
Proof.
  unfold filtered_sample, sample_iterator. rewrite Hsup.
  cbn [obind fst snd]. f_equal.
  unfold normalized, weighted_sum.
  rewrite (@weighted_fold_off_image src wrap s t _ _ filter
             (nchannels (spec src)) Hwrap (support_pixels sup)
             (fun x y Hp => conj (Hout x y Hp) (Hfin x y Hp)) f0).
  destruct (f0 <. _) eqn:E; [| apply mapi_chan_zeros].
  apply mapi_chan_fixes_zeros. intros _.
  now apply binary32_zero_quotient.
Qed.

End SampleOffImage.

(** A sample of [Data.ones2x2] at (10, 10) with the box filter of width
    2: its support [9, 11) x [9, 11) is off the image. *)
Lemma sample_off_image_is_black_witness :
  filtered_sample Data.ones2x2 (of_int 10) (of_int 10)
                  Data.one Data.zero Data.zero Data.one
                  Data.box2 WrapBlack false
  = Some [Data.zero].
Proof.
  refine (@sample_off_image_is_black
            Data.ones2x2 (of_int 10) (of_int 10)
            Data.one Data.zero Data.zero Data.one Data.box2 WrapBlack
            {| smin := 9; smax := 11; tmin := 9; tmax := 11 |}
            (or_introl eq_refl) eq_refl _ _).
  - intros x y Hin. vm_compute in Hin.
    repeat (destruct Hin as [Hin | Hin];
            [injection Hin as <- <-; reflexivity |]).
    destruct Hin.
  - intros x y _. unfold Data.box2, box_filter. cbn [filter_eval].
    destruct (_ && _); reflexivity.
Defined.

(** ** warp: the ROI it recomputes *)

Section WarpRecompute.

Context {F : Type} {ops : FloatOps F}.

Variable IBAprep : ROI -> @ImageBuf F -> @ImageBuf F
                   -> option (ROI * @ImageBuf F).
Variable create : string -> F -> F -> option (@Filter2D F).
Variable inverse : @M33f F -> @M33f F.

(** X19.  [warp] reads [recompute_roi] only for a destination that is
    not initialized and a ROI that is not defined: on an initialized
    destination, or with a defined ROI, the flag changes nothing.  Where
    it is read, and [transform] of the data window of the source by [M]
    is defined and a defined ROI, the warp is the warp without the flag
    over that ROI. *)
Theorem warp_recompute_roi
    (dst src : @ImageBuf F) (M : M33f) (filter : option Filter2D)
    (wrap : WrapMode) (roi : ROI) :
  (initialized dst = true \/ roi_defined roi = true ->
   warp IBAprep create inverse dst src M filter true wrap roi
   = warp IBAprep create inverse dst src M filter false wrap roi) /\
  (initialized dst = false -> roi_defined roi = false ->
   forall r,
     transform M (get_roi src) = Some r -> roi_defined r = true ->
     warp IBAprep create inverse dst src M filter true wrap roi
     = warp IBAprep create inverse dst src M filter false wrap r).
Proof.
  unfold warp, warp_impl. split.
  - intros [Hinit | Hroi]; [now rewrite Hinit |].
    rewrite Hroi. destruct (initialized dst); reflexivity.
  - intros Hnew Hroi r Hr Hdef. now rewrite Hnew, Hroi, Hr, Hdef.
Qed.

End WarpRecompute.

(** The warp of [Data.ones2x2] by the translation by (10, 20), with the
    box filter of width 1, into a destination that is not initialized:
    the ROI is recomputed as
    [10, 12) x [20, 22), and the pixel (10, 20) receives the pixel
    (0, 0) of the source. *)
Lemma warp_recompute_roi_witness :
  warp Samples.prep_alloc Data.create_box (fun _ => Samples.shift_back)
       Samples.fresh Data.ones2x2 Data.shift_10_20 (Some Data.box1)
       true WrapBlack ROI_undefined
  = warp Samples.prep_alloc Data.create_box (fun _ => Samples.shift_back)
         Samples.fresh Data.ones2x2 Data.shift_10_20 (Some Data.box1)
         false WrapBlack (roi2d 10 12 20 22 1) /\
  option_map (fun r => (fst r, pixel (snd r) 10 20 0, pixel (snd r) 9 20 0))
    (warp Samples.prep_alloc Data.create_box (fun _ => Samples.shift_back)
          Samples.fresh Data.ones2x2 Data.shift_10_20 (Some Data.box1)
          false WrapBlack (roi2d 10 12 20 22 1))
  = Some (true, Data.one, Data.zero).
Proof.
  split.
  - apply (proj2 (@warp_recompute_roi
                    _ Binary32.ops Samples.prep_alloc Data.create_box
                    (fun _ => Samples.shift_back)
                    Samples.fresh Data.ones2x2 Data.shift_10_20
                    (Some Data.box1) WrapBlack ROI_undefined)
                 eq_refl eq_refl (roi2d 10 12 20 22 1)).
    + vm_compute. reflexivity.
    + reflexivity.
  - vm_compute. reflexivity.
Defined.
